(** * Podcast processing workflow and progress estimator

    A shallow embedding of

    - [src/inngest/functions/podcast-processor.ts] (the [podcastProcessor]
      Inngest function: transcription, plan-gated generation fan-out,
      aggregation of the settled jobs, persistence, top-level failure
      handler), and
    - [src/components/projects/compact-progress.tsx] (the [CompactProgress]
      component: status text and the progress value its effect stores).

    JavaScript values are modelled as follows.  Strings are [string]; a
    [Record<string, T>] whose keys are job names is a [gmap string T]; a
    promise is represented by the outcome it settles with; a thrown value is
    the record [Thrown] of the observations the source makes on it.  The
    numbers of the progress computation are exact rationals ([Q]): the
    rounding of IEEE doubles is not modelled, and the properties of a
    quotient are stated for a positive divisor, so that no division by zero
    ([Infinity] or [NaN] in JavaScript, 0 in [Q]) is involved. *)

From Stdlib Require Import ZArith QArith Qminmax Qround Lqa Lia.
From stdpp Require Import gmap strings list fin_maps.

Open Scope string_scope.
Open Scope list_scope.

(** ** The JavaScript runtime pieces the sources rely on *)

Module JsRuntime.

(** A thrown (or rejected-with) value, as far as the sources look at it:
    [instanceof Error], [.message], [.stack], [String(v)], and the numeric
    properties [.statusCode] and [.status] (present here exactly when
    [typeof] gives ["number"]). *)
Record Thrown := {
  instanceofError : bool;
  message : string;
  stack : option string;
  toString : string;
  statusCode : option Z;
  status : option Z;
}.

(** How a promise settles. *)
Inductive Outcome (A : Type) :=
| Resolves (value : A)
| Rejects (reason : Thrown).
Arguments Resolves {A} value.
Arguments Rejects {A} reason.

(** The elements of the array [Promise.allSettled] resolves with:
    [{status: "fulfilled", value}] or [{status: "rejected", reason}]. *)
Inductive SettledResult (A : Type) :=
| fulfilled (value : A)
| rejected (reason : Thrown).
Arguments fulfilled {A} value.
Arguments rejected {A} reason.

Definition settledResult {A} (o : Outcome A) : SettledResult A :=
  match o with
  | Resolves v => fulfilled v
  | Rejects r => rejected r
  end.

(** [a || b] on an optional string: [undefined] and [""] are falsy. *)
Definition or_else (a : option string) (b : string) : string :=
  match a with
  | Some s => if (s =? "")%string then b else s
  | None => b
  end.

(** *** [Promise.allSettled]

    The join of ECMAScript's [PerformPromiseAllSettled]: one slot per
    submitted promise, in submission order, and a counter of the promises
    that have not settled yet.  When a promise settles, its reaction (guarded
    by [alreadyCalled]) stores the result object in the slot of its index
    and decrements the counter; the reaction that brings the counter to
    zero resolves the joined promise with the array of slots.  A slot that
    no reaction has written holds [undefined], here [None]. *)
Section AllSettled.
Context {A : Type}.

Record Join := {
  values : list (option (SettledResult A));
  remainingElementsCount : nat;
  resolvedWith : option (list (option (SettledResult A)));
}.

(** State after the synchronous part, for [n] submitted promises. *)
Definition join_start (n : nat) : Join :=
  {| values := replicate n None;
     remainingElementsCount := n;
     resolvedWith := if (n =? 0)%nat then Some [] else None |}.

(** The reaction of the promise at [index], settling with [o]. *)
Definition join_settle (index : nat) (o : Outcome A) (j : Join) : Join :=
  match values j !! index with
  | Some None =>
      let vs := <[index := Some (settledResult o)]> (values j) in
      let r := pred (remainingElementsCount j) in
      {| values := vs;
         remainingElementsCount := r;
         resolvedWith := if (r =? 0)%nat then Some vs else resolvedWith j |}
  | _ => j
  end.

(** The promises settle in some order [sched] (indices into the submitted
    list, in order of settlement); promise [i] settles with [outs !! i]. *)
Definition join_step (outs : list (Outcome A)) (j : Join) (i : nat) : Join :=
  match outs !! i with
  | Some o => join_settle i o j
  | None => j
  end.

Definition join_run (outs : list (Outcome A)) (sched : list nat) : Join :=
  foldl (join_step outs) (join_start (length outs)) sched.

(** What [await Promise.allSettled(jobs)] evaluates to: the array the join
    above is resolved with once every job has settled, whatever the order
    of settlement. *)
Definition allSettled (outs : list (Outcome A)) : list (SettledResult A) :=
  settledResult <$> outs.

End AllSettled.
Arguments Join A : clear implicits.

End JsRuntime.

(** ** [podcastProcessor] (src/inngest/functions/podcast-processor.ts) *)

Module PodcastProcessor.
Import JsRuntime.

(** How a piece of the function body completes. *)
Inductive Completion (A : Type) :=
| Normal (a : A)
| Throw (error : Thrown).
Arguments Normal {A} a.
Arguments Throw {A} error.

Section Workflow.

(** The transcript and the generated contents are opaque to the workflow
    (typed [any] in the source). *)
Context {Transcript Content : Type}.

(** [event.data]; [plan] is absent ([None]) when the event carries none. *)
Record EventData := {
  projectId : string;
  fileUrl : string;
  plan : option string;
}.

(** The calls the workflow makes on its collaborators, with their
    arguments: the Convex mutations, the transcription, the generation
    producers ([generate "summary"] is [generateSummary(step, transcript)],
    and so on), and the persistence step. *)
Inductive Call :=
| updateProjectStatus (projectId status : string)
| updateJobStatus (projectId field value : string)
| transcribeWithAssemblyAI (fileUrl projectId plan : string)
| generate (jobName : string) (transcript : Transcript)
| saveJobErrors (projectId : string) (jobErrors : gmap string string)
| saveResultsToConvex (projectId : string) (generatedContent : gmap string Content)
| recordError (projectId message step : string)
    (statusCode : option Z) (stack : option string).

(** The collaborators: how each call ends.  A [step.run] is identified by
    its step id; its outcome is the one the durable runner hands to the
    function body, that is, after the runner's own retries. *)
Record World := {
  stepOutcome : string -> option Thrown;
  transcribeOutcome : string -> string -> string -> Outcome Transcript;
  jobOutcome : string -> Transcript -> Outcome Content;
  recordErrorOutcome : option Thrown;
}.

(** A computation: the calls it made, in order, and its completion. *)
Definition M (A : Type) : Type := list Call * Completion A.

Definition ret {A} (a : A) : M A := ([], Normal a).

Definition throw {A} (error : Thrown) : M A := ([], Throw error).

Definition bind {A B} (m : M A) (f : A -> M B) : M B :=
  match m with
  | (t, Normal a) => let '(t', c) := f a in (t ++ t', c)
  | (t, Throw e) => (t, Throw e)
  end.

Definition try_catch {A} (m : M A) (handler : Thrown -> M A) : M A :=
  match m with
  | (t, Normal a) => (t, Normal a)
  | (t, Throw e) => let '(t', c) := handler e in (t ++ t', c)
  end.

Notation "'do' x <- m ; k" := (bind m (fun x => k))
  (at level 10, x name, m at level 100, k at level 200, only parsing).
Notation "'do_' m ; k" := (bind m (fun _ => k))
  (at level 10, m at level 100, k at level 200, only parsing).

Context (w : World).

(** [await step.run(id, async () => { await convex.mutation(...) })]. *)
Definition step_run (id : string) (call : Call) : M unit :=
  ([call],
   match stepOutcome w id with
   | None => Normal tt
   | Some e => Throw e
   end).

(** [await step.run("transcribe-audio",
      () => transcribeWithAssemblyAI(fileUrl, projectId, plan))]. *)
Definition step_transcribe (fileUrl projectId plan : string) : M Transcript :=
  ([transcribeWithAssemblyAI fileUrl projectId plan],
   match transcribeOutcome w fileUrl projectId plan with
   | Resolves transcript => Normal transcript
   | Rejects e => Throw e
   end).

(** Calling a generation producer starts the job and yields its promise;
    the call itself does not throw (the producers are [async]). *)
Definition launch (jobName : string) (transcript : Transcript)
  : M (Outcome Content) :=
  ([generate jobName transcript], Normal (jobOutcome w jobName transcript)).

(** [array.push(x)]. *)
Definition push {X} (array : list X) (x : X) : list X := array ++ [x].

(** Lines 86-109: the two parallel arrays [jobs] and [jobNames]. *)
Definition buildJobs (plan : string) (transcript : Transcript)
  : M (list (Outcome Content) * list string) :=
  let jobs := [] in
  let jobNames := [] in
  do job <- launch "summary" transcript;
  let jobs := push jobs job in
  let jobNames := push jobNames "summary" in
  do arrays <-
    (if ((plan =? "pro") || (plan =? "ultra"))%string then
       do job <- launch "socialPosts" transcript;
       let jobs := push jobs job in
       let jobNames := push jobNames "socialPosts" in
       do job <- launch "titles" transcript;
       let jobs := push jobs job in
       let jobNames := push jobNames "titles" in
       do job <- launch "hashtags" transcript;
       let jobs := push jobs job in
       let jobNames := push jobNames "hashtags" in
       ret (jobs, jobNames)
     else ret (jobs, jobNames));
  let '(jobs, jobNames) := arrays in
  do arrays <-
    (if (plan =? "ultra")%string then
       do job <- launch "keyMoments" transcript;
       let jobs := push jobs job in
       let jobNames := push jobNames "keyMoments" in
       do job <- launch "youtubeTimestamps" transcript;
       let jobs := push jobs job in
       let jobNames := push jobNames "youtubeTimestamps" in
       ret (jobs, jobNames)
     else ret (jobs, jobNames));
  ret arrays.

(** Lines 122-125. *)
Definition errorMessage (reason : Thrown) : string :=
  if instanceofError reason then message reason else toString reason.

(** [jobNames[idx]] used as a property key: out of range it is [undefined],
    which names the property ["undefined"]. *)
Definition jobNameAt (jobNames : list string) (idx : nat) : string :=
  default "undefined" (jobNames !! idx).

(** One iteration of the [results.forEach] of lines 116-130. *)
Definition collectOne (jobNames : list string)
    (acc : gmap string Content * gmap string string)
    (entry : nat * SettledResult Content)
  : gmap string Content * gmap string string :=
  let '(generatedContent, jobErrors) := acc in
  let '(idx, result) := entry in
  let jobName := jobNameAt jobNames idx in
  match result with
  | fulfilled value => (<[jobName := value]> generatedContent, jobErrors)
  | rejected reason =>
      (generatedContent, <[jobName := errorMessage reason]> jobErrors)
  end.

(** Lines 113-130: [generatedContent] and [jobErrors] after the loop. *)
Definition collect (jobNames : list string)
    (results : list (SettledResult Content))
  : gmap string Content * gmap string string :=
  foldl (collectOne jobNames) (∅, ∅) (imap pair results).

(** The value the function returns, [{ success: true, projectId, plan }]. *)
Record Result := {
  success : bool;
  result_projectId : string;
  result_plan : string;
}.

(** Lines 54-152: the [try] block. *)
Definition tryBlock (projectId fileUrl plan : string) : M Result :=
  do_ step_run "update-status-processing"
        (updateProjectStatus projectId "processing");
  do_ step_run "update-job-status-transcription-running"
        (updateJobStatus projectId "transcription" "running");
  do transcript <- step_transcribe fileUrl projectId plan;
  do_ step_run "update-job-status-transcription-completed"
        (updateJobStatus projectId "transcription" "completed");
  do_ step_run "update-job-status-generation-running"
        (updateJobStatus projectId "contentGeneration" "running");
  do arrays <- buildJobs plan transcript;
  let '(jobs, jobNames) := arrays in
  let results := allSettled jobs in
  let '(generatedContent, jobErrors) := collect jobNames results in
  do_ (if (0 <? size jobErrors)%nat then
         step_run "save-job-errors" (saveJobErrors projectId jobErrors)
       else ret tt);
  do_ step_run "update-job-status-generation-completed"
        (updateJobStatus projectId "contentGeneration" "completed");
  do_ step_run "save-results-to-convex"
        (saveResultsToConvex projectId generatedContent);
  ret {| success := true; result_projectId := projectId; result_plan := plan |}.

(** Lines 157-162. *)
Definition statusCodeOf (error : Thrown) : option Z :=
  match statusCode error with
  | Some n => Some n
  | None =>
      match status error with
      | Some n => Some n
      | None => None
      end
  end.

(** Lines 164-178: the direct [convex.mutation(api.projects.recordError, ...)]. *)
Definition mutation_recordError (projectId : string) (error : Thrown) : M unit :=
  ([recordError projectId
      (if instanceofError error then message error
       else "Unknown error occurred")
      "workflow"
      (statusCodeOf error)
      (if instanceofError error then stack error else Some (toString error))],
   match recordErrorOutcome w with
   | None => Normal tt
   | Some e => Throw e
   end).

(** Lines 153-184: the [catch (error)] block. *)
Definition catchBlock (projectId : string) (error : Thrown) : M Result :=
  do_ try_catch (mutation_recordError projectId error)
        (fun cleanupError => ret tt);
  throw error.

(** The function handler, lines 47-185. *)
Definition podcastProcessor (event : EventData) : M Result :=
  let projectId := projectId event in
  let fileUrl := fileUrl event in
  let userPlan := plan event in
  let plan := or_else userPlan "free" in
  try_catch (tryBlock projectId fileUrl plan) (catchBlock projectId).

(** The job names the workflow selects for a plan: the [jobNames] array
    when the fan-out is awaited. *)
Definition selectedJobNames (plan : string) (transcript : Transcript)
  : list string :=
  match buildJobs plan transcript with
  | (_, Normal (_, jobNames)) => jobNames
  | (_, Throw _) => []
  end.

End Workflow.

Arguments Call : clear implicits.
Arguments World : clear implicits.
Arguments M : clear implicits.

End PodcastProcessor.

(** ** [CompactProgress] (src/components/projects/compact-progress.tsx) *)

Module CompactProgress.

Local Open Scope Q_scope.

(** The [jobStatus] document of a project, field by field; a field that is
    absent (or is not a string) is [None]. *)
Record JobStatus := {
  transcription : option string;
  contentGeneration : option string;
  keyMoments : option string;
  summary : option string;
  socialPosts : option string;
  titles : option string;
  hashtags : option string;
  youtubeTimestamps : option string;
}.

(** The part of the value of [estimateAssemblyAITime] the component reads. *)
Record Estimate := { conservative : Q }.

(** [value === lit] for an optional string and a string literal. *)
Definition strictEq (value : option string) (lit : string) : bool :=
  match value with
  | Some s => (s =? lit)%string
  | None => false
  end.

(** Lines 20-27. *)
Definition isJobState (value : option string) : bool :=
  strictEq value "pending" || strictEq value "running" ||
  strictEq value "completed" || strictEq value "failed".

(** [isJobState(v) ? v : undefined]. *)
Definition normalize (value : option string) : option string :=
  if isJobState value then value else None.

Section Component.

(** [PROGRESS_CAP_PERCENTAGE] of [@/lib/constants] and
    [estimateAssemblyAITime] of [@/lib/processing-time-estimator] are
    imported by the component and defined outside the files at hand. *)
Variable PROGRESS_CAP_PERCENTAGE : Q.
Variable estimateAssemblyAITime : option Q -> Estimate.

(** The props; [jobStatus] itself may be undefined. *)
Variable jobStatus : option JobStatus.
Variable fileDuration : option Q.
Variable createdAt : Q.

(** [jobStatus?.field]. *)
Definition get (field : JobStatus -> option string) : option string :=
  match jobStatus with
  | Some doc => field doc
  | None => None
  end.

Definition transcriptionStatus : option string :=
  normalize (get transcription).

Definition contentGenerationStatus : option string :=
  normalize (get contentGeneration).

(** Lines 44-56. *)
Definition stepStatuses : list (option string) :=
  let maybe :=
    [ get keyMoments;
      get summary;
      get socialPosts;
      get titles;
      get hashtags;
      get youtubeTimestamps ] in
  List.map normalize maybe.

Definition completedSteps : nat :=
  length (List.filter (fun s => strictEq s "completed") stepStatuses).

Definition totalSteps : nat := length stepStatuses.

Definition anyFailed : bool :=
  strictEq transcriptionStatus "failed" ||
  strictEq contentGenerationStatus "failed" ||
  existsb (fun s => strictEq s "failed") stepStatuses.

Definition isTranscribing : bool := strictEq transcriptionStatus "running".

Definition isTranscribed : bool := strictEq transcriptionStatus "completed".

Definition isGenerated : bool :=
  (0 <? totalSteps)%nat && (completedSteps =? totalSteps)%nat.

(** Lines 75-81. *)
Definition statusText : string :=
  if anyFailed then "⚠️ Failed"
  else if isTranscribing then "🎙️ Transcribing..."
  else if isTranscribed && negb isGenerated then "✨ Generating content..."
  else if isTranscribed && isGenerated then "✅ Complete"
  else "⏳ Processing...".

(** Lines 98-107, [updateProgress], run at time [now = Date.now()]. *)
Definition updateProgress (now : Q) : Q :=
  let estimate := estimateAssemblyAITime fileDuration in
  let elapsed := inject_Z (Qfloor ((now - createdAt) / 1000)) in
  let raw := (elapsed / conservative estimate) * 100 in
  let capped := Qmin PROGRESS_CAP_PERCENTAGE raw in
  let phase1 := Qmin 50 ((capped / PROGRESS_CAP_PERCENTAGE) * 50) in
  phase1.

(** Lines 83-124: the value of the [progress] state after the effect has
    run, from its previous value; in the transcribing phase [now] is the
    clock at the latest run of [updateProgress] (the immediate one or a
    tick of the interval). *)
Definition effect (progress : Q) (now : Q) : Q :=
  if anyFailed then Qmin progress 95
  else if isTranscribed && isGenerated then 100
  else if isTranscribing then updateProgress now
  else if isTranscribed then
    let stepProgress :=
      if (0 <? totalSteps)%nat then
        (inject_Z (Z.of_nat completedSteps) / inject_Z (Z.of_nat totalSteps)) * 50
      else 0 in
    50 + stepProgress
  else 10.

End Component.

End CompactProgress.

(** ** Tier utilities (src/lib/tier-utils.ts) *)

Module TierUtils.
Import JsRuntime PodcastProcessor.

Local Open Scope Q_scope.

(** [PlanName] of [./tier-config], the type of the plans. *)
Inductive PlanName := free | pro | ultra.

(** The plan as the string it is at run time. *)
Definition planString (plan : PlanName) : string :=
  match plan with
  | free => "free"
  | pro => "pro"
  | ultra => "ultra"
  end.

(** The argument of Clerk's [has]: [{ plan }] or [{ feature }]. *)
Inductive HasParams :=
| PlanParam (plan : PlanName)
| FeatureParam (feature : string).

(** The auth object as far as the module looks at it: its optional [has]. *)
Record AuthObject := { has : option (HasParams -> bool) }.

(** An entry of [PLAN_LIMITS]; [null] is [None]. *)
Record Limits := {
  maxFileSize : Q;
  maxDuration : option Q;
  maxProjects : option Q;
}.

(** The [reason] of a refusal. *)
Inductive Reason := file_size | duration_limit | project_limit.

(** Lines 24-30, [UploadValidationResult]. *)
Record UploadValidationResult := {
  allowed : bool;
  reason : option Reason;
  message : option string;
  currentCount : option Q;
  limit : option Q;
}.

(** [x > y] on numbers. *)
Definition gt (x y : Q) : bool := negb (Qle_bool x y).

(** [x >= y] on numbers. *)
Definition ge (x y : Q) : bool := Qle_bool y x.

(** Lines 36-41; [auth] itself may be undefined ([auth?.has]). *)
Definition getPlanFromAuth (auth : option AuthObject) : PlanName :=
  let has := match auth with Some a => has a | None => None end in
  if match has with Some h => h (PlanParam ultra) | None => false end
  then ultra
  else if match has with Some h => h (PlanParam pro) | None => false end
  then pro
  else free.

(** Lines 109-112. *)
Definition checkFeatureAccess (auth : option AuthObject) (feature : string)
  : bool :=
  let has := match auth with Some a => has a | None => None end in
  match has with
  | Some h => h (FeatureParam feature)
  | None => false
  end.

Section Config.

(** [PLAN_FEATURES] and [PLAN_LIMITS] of [./tier-config], imported by the
    module and defined outside the files at hand. *)
Variable PLAN_FEATURES : PlanName -> list string.
Variable PLAN_LIMITS : PlanName -> Limits.

(** The conversions of numbers to text the messages use:
    [n.toFixed(digits)] and the interpolation [`${n}`]. *)
Variable toFixed : Q -> nat -> string.
Variable numberToString : Q -> string.

(** The project-count query of the Convex store, by user id and
    [includeDeleted]. *)
Variable getUserProjectCount : string -> bool -> Outcome Q.

(** Lines 117-119. *)
Definition getPlanFeatures (plan : PlanName) : list string :=
  PLAN_FEATURES plan.

(** Lines 124-126, [PLAN_FEATURES[plan].includes(feature)]. *)
Definition planHasFeature (plan : PlanName) (feature : string) : bool :=
  bool_decide (feature ∈ PLAN_FEATURES plan).

(** Lines 131-135. *)
Definition getMinimumPlanForFeature (feature : string) : PlanName :=
  if bool_decide (feature ∈ PLAN_FEATURES free) then free
  else if bool_decide (feature ∈ PLAN_FEATURES pro) then pro
  else ultra.

(** Lines 46-104.  The value is the list of queries made on the store,
    each with its [userId] and [includeDeleted], and how the function
    completes.  [duration_limit] is the reason ["duration"]. *)
Definition checkUploadLimits (auth : option AuthObject) (userId : string)
    (fileSize : Q) (duration : option Q)
  : list (string * bool) * Completion UploadValidationResult :=
  let plan := getPlanFromAuth auth in
  let limits := PLAN_LIMITS plan in
  (* lines 82-103, reached when the two checks before them pass *)
  let projectCount_check :=
    match maxProjects limits with
    | Some maxP =>
        let includeDeleted :=
          match plan with free => true | _ => false end in
        match getUserProjectCount userId includeDeleted with
        | Rejects e => ([(userId, includeDeleted)], Throw e)
        | Resolves projectCount =>
            if ge projectCount maxP then
              ([(userId, includeDeleted)], Normal
                 {| allowed := false;
                    reason := Some project_limit;
                    message := Some
                      ("You've reached your plan limit of "
                       +:+ numberToString maxP +:+ " "
                       +:+ (match plan with
                            | free => "total"
                            | _ => "active"
                            end)
                       +:+ " projects");
                    currentCount := Some projectCount;
                    limit := Some maxP |})
            else
              ([(userId, includeDeleted)], Normal
                 {| allowed := true; reason := None; message := None;
                    currentCount := None; limit := None |})
        end
    | None =>
        ([], Normal
           {| allowed := true; reason := None; message := None;
              currentCount := None; limit := None |})
    end in
  if gt fileSize (maxFileSize limits) then
    ([], Normal
       {| allowed := false;
          reason := Some file_size;
          message := Some
            ("File size (" +:+ toFixed (fileSize / (1024 * 1024)) 1
             +:+ "MB) exceeds your plan limit of "
             +:+ toFixed (maxFileSize limits / (1024 * 1024)) 0 +:+ "MB");
          currentCount := None;
          limit := None |})
  else
    match duration, maxDuration limits with
    | Some d, Some maxD =>
        if gt d maxD then
          let durationMinutes := inject_Z (Qfloor (d / 60)) in
          let limitMinutes := inject_Z (Qfloor (maxD / 60)) in
          ([], Normal
             {| allowed := false;
                reason := Some duration_limit;
                message := Some
                  ("Duration (" +:+ numberToString durationMinutes
                   +:+ " minutes) exceeds your plan limit of "
                   +:+ numberToString limitMinutes +:+ " minutes");
                currentCount := None;
                limit := None |})
        else projectCount_check
    | _, _ => projectCount_check
    end.

End Config.

End TierUtils.

(** ** Notions used to state and prove the properties *)

Module JoinInv.
Import JsRuntime.

Section Inv.
Context {A : Type}.

(** The number of slots no reaction has written yet. *)
Definition pendingCount (vs : list (option (SettledResult A))) : nat :=
  length (List.filter (fun v => match v with None => true | Some _ => false end) vs).

(** The state of the join once the promises listed in [seen] have settled. *)
Definition join_inv (outs : list (Outcome A)) (seen : list nat) (j : Join A) : Prop :=
  length (values j) = length outs ∧
  (∀ i o, outs !! i = Some o →
     values j !! i =
       Some (if bool_decide (i ∈ seen) then Some (settledResult o) else None)) ∧
  remainingElementsCount j = pendingCount (values j) ∧
  resolvedWith j =
    if (remainingElementsCount j =? 0)%nat then Some (values j) else None.

End Inv.
End JoinInv.

Module WorkflowSpec.
Import JsRuntime PodcastProcessor.

(** The contents of [jobNames] after lines 86-109, as a function of the
    plan alone ([buildJobs_spec] below relates it to [buildJobs]). *)
Definition jobNamesFor (plan : string) : list string :=
  ["summary"] ++
  (if ((plan =? "pro") || (plan =? "ultra"))%string
   then ["socialPosts"; "titles"; "hashtags"] else []) ++
  (if (plan =? "ultra")%string
   then ["keyMoments"; "youtubeTimestamps"] else []).

(** Every [step.run] of the sequential spine succeeds and the transcription
    yields [transcript]. *)
Definition spineSucceeds {Transcript Content : Type}
    (w : World Transcript Content) (event : EventData)
    (transcript : Transcript) : Prop :=
  (∀ id, stepOutcome w id = None) ∧
  transcribeOutcome w (fileUrl event) (projectId event)
    (or_else (plan event) "free") = Resolves transcript.

(** The calls of a run in which the spine succeeds, given the two records
    the aggregation produced. *)
Definition successTrace {Transcript Content : Type}
    (projectId fileUrl plan : string) (transcript : Transcript)
    (jobNames : list string)
    (generatedContent : gmap string Content) (jobErrors : gmap string string)
  : list (Call Transcript Content) :=
  [ updateProjectStatus projectId "processing";
    updateJobStatus projectId "transcription" "running";
    transcribeWithAssemblyAI fileUrl projectId plan;
    updateJobStatus projectId "transcription" "completed";
    updateJobStatus projectId "contentGeneration" "running" ] ++
  ((λ jobName, generate jobName transcript) <$> jobNames) ++
  (if (0 <? size jobErrors)%nat
   then [saveJobErrors projectId jobErrors] else []) ++
  [ updateJobStatus projectId "contentGeneration" "completed";
    saveResultsToConvex projectId generatedContent ].

(** Where the aggregation leaves the job named [jobName] that settled with
    [o]: its value in [generatedContent] only, or its message in [jobErrors]
    only. *)
Definition recordedAs {Content : Type} (jobName : string) (o : Outcome Content)
    (generatedContent : gmap string Content) (jobErrors : gmap string string)
  : Prop :=
  match o with
  | Resolves value =>
      generatedContent !! jobName = Some value ∧ jobErrors !! jobName = None
  | Rejects reason =>
      jobErrors !! jobName = Some (errorMessage reason) ∧
      generatedContent !! jobName = None
  end.

(** The call is the error-recording mutation. *)
Definition isRecordError {Transcript Content : Type}
    (call : Call Transcript Content) : bool :=
  match call with
  | recordError _ _ _ _ _ => true
  | _ => false
  end.

(** A computation that makes no [recordError] call. *)
Definition recordsNothing {Transcript Content A : Type}
    (m : M Transcript Content A) : Prop :=
  Forall (λ call, isRecordError call = false) (fst m).

End WorkflowSpec.

Module ProgressSpec.
Import CompactProgress.

(** How far the transcription flag has moved through
    pending, running, completed (an absent or unknown flag counts as not
    started, as in the component's tests on it). *)
Definition transcriptionRank (jobStatus : option JobStatus) : nat :=
  if isTranscribed jobStatus then 2
  else if isTranscribing jobStatus then 1
  else 0.

(** The number of generation steps that carry a status at all. *)
Definition stepsWithStatus (jobStatus : option JobStatus) : nat :=
  length (List.filter (λ s, match s with Some _ => true | None => false end)
            (stepStatuses jobStatus)).

End ProgressSpec.

Module WorkflowInvariants.
Import JsRuntime PodcastProcessor.

(** What a call of a run on project [projectId] may be: it is made on that
    project; the project status it writes is ["processing"]; the job flag
    it writes is [transcription] or [contentGeneration], set to ["running"]
    or ["completed"]; the step it records an error for is ["workflow"]. *)
Definition callOfRun {Transcript Content : Type} (projectId : string)
    (call : Call Transcript Content) : bool :=
  match call with
  | updateProjectStatus p status =>
      (p =? projectId)%string && (status =? "processing")%string
  | updateJobStatus p field value =>
      (p =? projectId)%string &&
      ((field =? "transcription") || (field =? "contentGeneration"))%string &&
      ((value =? "running") || (value =? "completed"))%string
  | transcribeWithAssemblyAI _ p _ => (p =? projectId)%string
  | generate _ _ => true
  | saveJobErrors p _ => (p =? projectId)%string
  | saveResultsToConvex p _ => (p =? projectId)%string
  | recordError p _ step _ _ =>
      (p =? projectId)%string && (step =? "workflow")%string
  end.

(** Every call of the computation satisfies [P]. *)
Definition callsSatisfy {Transcript Content A : Type}
    (P : Call Transcript Content → Prop) (m : M Transcript Content A) : Prop :=
  Forall P (fst m).

(** The calls of a run up to and including the transcription. *)
Definition callsToTranscription {Transcript Content : Type}
    (projectId fileUrl plan : string) : list (Call Transcript Content) :=
  [ updateProjectStatus projectId "processing";
    updateJobStatus projectId "transcription" "running";
    transcribeWithAssemblyAI fileUrl projectId plan ].

End WorkflowInvariants.

Module TierSpec.
Import TierUtils.
Local Open Scope Q_scope.

(** The order of the plans by entitlement. *)
Definition planRank (plan : PlanName) : nat :=
  match plan with
  | free => 0
  | pro => 1
  | ultra => 2
  end.

(** The file is not larger than the plan allows. *)
Definition withinSize (limits : Limits) (fileSize : Q) : Prop :=
  fileSize <= maxFileSize limits.

(** The duration, when it is given and the plan limits it, is not longer
    than the plan allows. *)
Definition withinDuration (limits : Limits) (duration : option Q) : Prop :=
  ∀ d maxD, duration = Some d → maxDuration limits = Some maxD → d <= maxD.

(** [includeDeleted] of line 84. *)
Definition countsDeleted (plan : PlanName) : bool :=
  match plan with
  | free => true
  | _ => false
  end.

End TierSpec.

(** ** Concrete runs *)

Module Scenarios.
Import JsRuntime PodcastProcessor.

Definition rateLimited : Thrown :=
  {| instanceofError := true;
     message := "429 rate limit exceeded";
     stack := Some "Error: 429 rate limit exceeded";
     toString := "Error: 429 rate limit exceeded";
     statusCode := None;
     status := Some 429%Z |}.

Definition storeDown : Thrown :=
  {| instanceofError := true;
     message := "store unreachable";
     stack := None;
     toString := "Error: store unreachable";
     statusCode := Some 503%Z;
     status := None |}.

Definition event (userPlan : option string) : EventData :=
  {| projectId := "project-1";
     fileUrl := "https://blob.example/audio.mp3";
     plan := userPlan |}.

(** Every collaborator succeeds; a job yields its own name as content. *)
Definition allGood : World string string :=
  {| stepOutcome := λ _, None;
     transcribeOutcome := λ _ _ _, Resolves "transcript";
     jobOutcome := λ jobName _, Resolves jobName;
     recordErrorOutcome := None |}.

(** As [allGood], but the titles job is rejected. *)
Definition titlesFail : World string string :=
  {| stepOutcome := λ _, None;
     transcribeOutcome := λ _ _ _, Resolves "transcript";
     jobOutcome := λ jobName _,
       if (jobName =? "titles")%string then Rejects rateLimited
       else Resolves jobName;
     recordErrorOutcome := None |}.

(** The transcription is rejected. *)
Definition transcriptionFails : World string string :=
  {| stepOutcome := λ _, None;
     transcribeOutcome := λ _ _ _, Rejects rateLimited;
     jobOutcome := λ jobName _, Resolves jobName;
     recordErrorOutcome := None |}.

(** The generation-completed mutation fails, and so does the
    [recordError] call of the handler, with another error. *)
Definition recordingFails : World string string :=
  {| stepOutcome := λ id,
       if (id =? "update-job-status-generation-completed")%string
       then Some rateLimited else None;
     transcribeOutcome := λ _ _ _, Resolves "transcript";
     jobOutcome := λ jobName _, Resolves jobName;
     recordErrorOutcome := Some storeDown |}.

End Scenarios.

Module ProgressScenarios.
Import CompactProgress.

Definition cap : Q := 80.

Definition estimate (fileDuration : option Q) : Estimate :=
  {| conservative := 100 |}.

Definition flags (t : option string) (steps : list (option string))
  : option JobStatus :=
  Some {| transcription := t;
          contentGeneration := None;
          keyMoments := nth 0 steps None;
          summary := nth 1 steps None;
          socialPosts := nth 2 steps None;
          titles := nth 3 steps None;
          hashtags := nth 4 steps None;
          youtubeTimestamps := nth 5 steps None |}.

(** Nothing has started. *)
Definition notStarted : option JobStatus := flags (Some "pending") [].

(** The transcription is running. *)
Definition transcribing : option JobStatus := flags (Some "running") [].

(** A pro run, whose four jobs carry a status, two of them completed. *)
Definition proTwoOfFour : option JobStatus :=
  flags (Some "completed")
    [None; Some "completed"; Some "completed";
     Some "running"; Some "running"; None].

(** The same run with its four jobs completed. *)
Definition proFourOfFour : option JobStatus :=
  flags (Some "completed")
    [None; Some "completed"; Some "completed";
     Some "completed"; Some "completed"; None].

(** Three of the six steps completed. *)
Definition threeOfSix : option JobStatus :=
  flags (Some "completed")
    [Some "completed"; Some "completed"; Some "completed";
     Some "running"; Some "running"; Some "pending"].

(** All six steps completed. *)
Definition sixOfSix : option JobStatus :=
  flags (Some "completed")
    [Some "completed"; Some "completed"; Some "completed";
     Some "completed"; Some "completed"; Some "completed"].

End ProgressScenarios.

Module TierScenarios.
Import JsRuntime TierUtils.
Local Open Scope Q_scope.

Definition features (plan : PlanName) : list string :=
  match plan with
  | free => ["summary"]
  | pro => ["summary"; "social_posts"; "titles"; "hashtags"]
  | ultra => ["summary"; "social_posts"; "titles"; "hashtags";
              "key_moments"; "youtube_timestamps"]
  end.

Definition limits (plan : PlanName) : Limits :=
  match plan with
  | free => {| maxFileSize := 10 * 1024 * 1024;
               maxDuration := Some 600;
               maxProjects := Some 3 |}
  | pro => {| maxFileSize := 200 * 1024 * 1024;
              maxDuration := Some 7200;
              maxProjects := Some 30 |}
  | ultra => {| maxFileSize := 3072 * 1024 * 1024;
                maxDuration := None;
                maxProjects := None |}
  end.

(** Numbers are not printed in these runs: a mark stands for each. *)
Definition showWhole (n : Q) : string := "#".

Definition showFixed (n : Q) (digits : nat) : string := "#".

(** A user with two projects, one more when deleted ones are counted. *)
Definition projectCount (userId : string) (includeDeleted : bool)
  : Outcome Q :=
  Resolves (if includeDeleted then 3 else 2).

Definition proUser : option AuthObject :=
  Some {| has := Some (λ params,
            match params with
            | PlanParam pro => true
            | _ => false
            end) |}.

Definition freeUser : option AuthObject :=
  Some {| has := Some (λ _, false) |}.

End TierScenarios.

Module MoreScenarios.
Import JsRuntime PodcastProcessor CompactProgress.

(** Every generation job is rejected; everything else succeeds. *)
Definition allRejected : World string string :=
  {| stepOutcome := λ _, None;
     transcribeOutcome := λ _ _ _, Resolves "transcript";
     jobOutcome := λ _ _, Rejects Scenarios.rateLimited;
     recordErrorOutcome := None |}.

(** The two records of the pro run in which only the titles job is
    rejected. *)
Definition titlesFailContent : gmap string string :=
  <["summary" := "summary"]>
    (<["socialPosts" := "socialPosts"]> {[ "hashtags" := "hashtags" ]}).

Definition titlesFailErrors : gmap string string :=
  {[ "titles" := "429 rate limit exceeded" ]}.

(** A run whose transcription is completed and whose titles step failed. *)
Definition titlesStepFailed : JobStatus :=
  {| transcription := Some "completed";
     contentGeneration := Some "running";
     keyMoments := None;
     summary := Some "completed";
     socialPosts := Some "completed";
     titles := Some "failed";
     hashtags := Some "running";
     youtubeTimestamps := None |}.

(** A run whose transcription is completed, with two steps completed. *)
Definition generating : JobStatus :=
  {| transcription := Some "completed";
     contentGeneration := Some "running";
     keyMoments := None;
     summary := Some "completed";
     socialPosts := Some "completed";
     titles := Some "running";
     hashtags := Some "running";
     youtubeTimestamps := None |}.

End MoreScenarios.

(** * Properties *)

(** ** The fan-out join *)

Section JoinProofs.
Import JsRuntime JoinInv.
Context {A : Type}.
Implicit Types (outs : list (Outcome A)) (j : Join A)
  (vs : list (option (SettledResult A))).

Lemma pendingCount_replicate n :
  pendingCount (replicate n (@None (SettledResult A))) = n.
Proof. induction n as [|n IH]; simpl; [done | by rewrite <- IH at 2]. Qed.

Lemma pendingCount_insert vs i x :
  vs !! i = Some None →
  S (pendingCount (<[i := Some x]> vs)) = pendingCount vs.
Proof.
  revert i. induction vs as [|v vs IH]; intros [|i] Hi; simplify_eq/=.
  - done.
  - unfold pendingCount in *. simpl. destruct v; simpl; rewrite IH; done.
Qed.

Lemma pendingCount_zero vs :
  pendingCount vs = 0 ↔ ∀ i, vs !! i ≠ Some None.
Proof.
  unfold pendingCount. induction vs as [|v vs IH]; simpl.
  - split; [intros _ i; by rewrite lookup_nil | done].
  - destruct v as [r|]; simpl.
    + rewrite IH. split.
      * intros H [|i]; simpl; [done | apply H].
      * intros H i. apply (H (S i)).
    + split; [done | intros H; by destruct (H 0)].
Qed.

Lemma join_inv_start outs : join_inv outs [] (join_start (length outs)).
Proof.
  unfold join_inv, join_start; simpl. repeat split.
  - by rewrite length_replicate.
  - intros i o Hi. apply lookup_replicate_2. by eapply lookup_lt_Some.
  - by rewrite pendingCount_replicate.
  - destruct (length outs); done.
Qed.

Lemma join_inv_seen outs seen seen' j :
  (∀ i, i < length outs → i ∈ seen ↔ i ∈ seen') →
  join_inv outs seen j → join_inv outs seen' j.
Proof.
  intros Hseen (Hlen & Hval & Hrem & Hres). repeat split; try done.
  intros i o Hi. rewrite (Hval i o Hi).
  apply lookup_lt_Some in Hi.
  by rewrite (bool_decide_ext _ _ (Hseen i Hi)).
Qed.

Lemma join_inv_step outs seen j i :
  join_inv outs seen j → join_inv outs (seen ++ [i]) (join_step outs j i).
Proof.
  intros Hinv. unfold join_step.
  destruct (outs !! i) as [o|] eqn:Hi.
  - destruct Hinv as (Hlen & Hval & Hrem & Hres).
    unfold join_settle. rewrite (Hval i o Hi). case_bool_decide as Hin.
    + eapply join_inv_seen; [|by repeat split].
      intros i' _. rewrite elem_of_app, list_elem_of_singleton.
      split; [auto | intros [? | ->]; done].
    + pose proof (pendingCount_insert (values j) i (settledResult o)) as Hcnt.
      rewrite (Hval i o Hi), bool_decide_eq_false_2 in Hcnt by done.
      specialize (Hcnt eq_refl).
      repeat split; simpl.
      * by rewrite length_insert.
      * intros i' o' Hi'. destruct (decide (i' = i)) as [->|Hne].
        -- rewrite list_lookup_insert_eq
             by (rewrite Hlen; by eapply lookup_lt_Some).
           rewrite bool_decide_eq_true_2 by set_solver. congruence.
        -- rewrite list_lookup_insert_ne by done. rewrite (Hval i' o' Hi').
           rewrite (bool_decide_ext (i' ∈ seen ++ [i]) (i' ∈ seen)); [done|].
           rewrite elem_of_app, list_elem_of_singleton.
           split; [intros [|]; done | auto].
      * lia.
      * destruct (pred (remainingElementsCount j) =? 0)%nat eqn:E; [done|].
        rewrite Hres. apply Nat.eqb_neq in E.
        destruct (remainingElementsCount j =? 0)%nat eqn:E'; [|done].
        apply Nat.eqb_eq in E'. lia.
  - eapply join_inv_seen; [|done].
    intros i' Hlt. rewrite elem_of_app, list_elem_of_singleton.
    apply lookup_ge_None in Hi. split; [auto | intros [|]; [done | lia]].
Qed.

Lemma join_inv_foldl outs sched seen j :
  join_inv outs seen j →
  join_inv outs (seen ++ sched) (foldl (join_step outs) j sched).
Proof.
  revert seen j. induction sched as [|i sched IH]; intros seen j Hinv; simpl.
  - by rewrite app_nil_r.
  - replace (seen ++ i :: sched) with ((seen ++ [i]) ++ sched)
      by (by rewrite <- app_assoc).
    apply IH. by apply join_inv_step.
Qed.

Lemma join_inv_run outs sched : join_inv outs sched (join_run outs sched).
Proof. apply (join_inv_foldl outs sched []). apply join_inv_start. Qed.

Lemma join_inv_values_all outs seen j :
  join_inv outs seen j →
  (∀ i, i < length outs → i ∈ seen) →
  values j = Some <$> allSettled outs.
Proof.
  intros (Hlen & Hval & _) Hall. apply list_eq. intros i.
  unfold allSettled. rewrite !list_lookup_fmap.
  destruct (outs !! i) as [o|] eqn:Hi; simpl.
  - rewrite (Hval i o Hi), bool_decide_eq_true_2; [done|].
    apply Hall. by eapply lookup_lt_Some.
  - apply lookup_ge_None. rewrite Hlen. by apply lookup_ge_None.
Qed.

Lemma join_inv_resolved outs seen j :
  join_inv outs seen j →
  is_Some (resolvedWith j) ↔ ∀ i, i < length outs → i ∈ seen.
Proof.
  intros (Hlen & Hval & Hrem & Hres). rewrite Hres.
  destruct (remainingElementsCount j =? 0)%nat eqn:E.
  - apply Nat.eqb_eq in E. rewrite Hrem in E.
    split; [intros _ i Hi | by eauto].
    destruct (lookup_lt_is_Some_2 outs i Hi) as [o Ho].
    pose proof (proj1 (pendingCount_zero _) E i) as Hne.
    rewrite (Hval i o Ho) in Hne. case_bool_decide; done.
  - apply Nat.eqb_neq in E. rewrite Hrem in E.
    split; [by intros [? ?] | intros Hall; exfalso; apply E].
    apply pendingCount_zero. intros i Hnone.
    assert (i < length outs) as Hi
      by (rewrite <- Hlen; by eapply lookup_lt_Some).
    destruct (lookup_lt_is_Some_2 outs i Hi) as [o Ho].
    rewrite (Hval i o Ho), bool_decide_eq_true_2 in Hnone by auto. done.
Qed.

(** C2.  [Promise.allSettled] on [N] submitted jobs: whatever the outcomes
    and whatever the order in which the jobs settle, the joined promise is
    resolved exactly when each of the [N] jobs has settled (a rejection, even
    of the first job, neither resolves it early nor keeps another job's slot
    from being filled), and it is resolved with [N] result objects, the one
    at index [i] being that of the [i]-th submitted job: the array the
    workflow awaits, [allSettled outs]. *)
Theorem allSettled_join outs sched :
  ((∀ i, i < length outs → i ∈ sched) →
     resolvedWith (join_run outs sched) = Some (Some <$> allSettled outs)) ∧
  (∀ rs, resolvedWith (join_run outs sched) = Some rs →
     (∀ i, i < length outs → i ∈ sched) ∧
     rs = Some <$> allSettled outs ∧
     length rs = length outs ∧
     length (allSettled outs) = length outs ∧
     ∀ i o, outs !! i = Some o →
       rs !! i = Some (Some (settledResult o)) ∧
       allSettled outs !! i = Some (settledResult o)).
Proof.
  pose proof (join_inv_run outs sched) as Hinv.
  pose proof (join_inv_resolved _ _ _ Hinv) as Hres.
  assert (∀ rs, resolvedWith (join_run outs sched) = Some rs →
            rs = values (join_run outs sched)) as Hrs.
  { intros rs Hrs. destruct Hinv as (_ & _ & _ & Hr). rewrite Hr in Hrs.
    destruct (_ =? 0)%nat; congruence. }
  split.
  - intros Hall. destruct (proj2 Hres Hall) as [rs Hr].
    rewrite Hr, (Hrs rs Hr). f_equal. by apply join_inv_values_all with sched.
  - intros rs Hr.
    assert (∀ i, i < length outs → i ∈ sched) as Hall by (apply Hres; eauto).
    assert (rs = Some <$> allSettled outs) as ->
      by (rewrite (Hrs rs Hr); by apply join_inv_values_all with sched).
    unfold allSettled. rewrite !length_fmap.
    split; [done | split; [done | split; [done | split; [done |]]]].
    intros i o Ho. rewrite !list_lookup_fmap, Ho. done.
Qed.

End JoinProofs.

Section JoinRuns.
Import JsRuntime.

(** Three jobs, the first rejected at once, the others settling later and
    out of order: the join stays pending until the last one has settled. *)
Example first_job_rejected_at_once :
  let outs := [Rejects Scenarios.rateLimited; Resolves "a"; Resolves "b"] in
  resolvedWith (join_run outs [0%nat]) = None ∧
  resolvedWith (join_run outs [0%nat; 2%nat]) = None ∧
  resolvedWith (join_run outs [0%nat; 2%nat; 1%nat]) =
    Some [Some (rejected Scenarios.rateLimited);
          Some (fulfilled "a"); Some (fulfilled "b")] ∧
  resolvedWith (join_run outs [0%nat; 2%nat; 0%nat; 1%nat; 7%nat]) =
    Some (Some <$> allSettled outs).
Proof. repeat split; reflexivity. Qed.

End JoinRuns.

(** ** The workflow *)

Section WorkflowProofs.
Import JsRuntime PodcastProcessor WorkflowSpec.
Context {Transcript Content : Type}.
Implicit Types (w : World Transcript Content) (event : EventData)
  (transcript : Transcript) (jobNames : list string)
  (generatedContent : gmap string Content) (jobErrors : gmap string string).

Lemma buildJobs_spec w plan transcript :
  buildJobs w plan transcript =
    ((λ jobName, generate jobName transcript) <$> jobNamesFor plan,
     Normal ((λ jobName, jobOutcome w jobName transcript) <$> jobNamesFor plan,
             jobNamesFor plan)).
Proof.
  unfold buildJobs, jobNamesFor.
  destruct (plan =? "pro")%string, (plan =? "ultra")%string; reflexivity.
Qed.

Lemma selectedJobNames_spec w plan transcript :
  selectedJobNames w plan transcript = jobNamesFor plan.
Proof. unfold selectedJobNames. by rewrite buildJobs_spec. Qed.

Lemma jobNamesFor_NoDup plan : NoDup (jobNamesFor plan).
Proof.
  unfold jobNamesFor.
  destruct (plan =? "pro")%string, (plan =? "ultra")%string; simpl;
    apply (bool_decide_unpack _); vm_compute; exact I.
Qed.

Lemma collect_snoc jobNames (results : list (SettledResult Content)) result :
  collect jobNames (results ++ [result]) =
  collectOne jobNames (collect jobNames results) (length results, result).
Proof.
  unfold collect. rewrite imap_app, foldl_app. simpl.
  by rewrite Nat.add_0_r.
Qed.

(** The state of the two records after the loop has visited [results]. *)
Lemma collect_inv jobNames (results : list (SettledResult Content)) :
  NoDup jobNames →
  (length results ≤ length jobNames)%nat →
  ∀ generatedContent jobErrors,
    collect jobNames results = (generatedContent, jobErrors) →
    (∀ i jobName result,
        jobNames !! i = Some jobName → results !! i = Some result →
        match result with
        | fulfilled value =>
            generatedContent !! jobName = Some value ∧
            jobErrors !! jobName = None
        | rejected reason =>
            jobErrors !! jobName = Some (errorMessage reason) ∧
            generatedContent !! jobName = None
        end) ∧
    (∀ key, (∀ i, i < length results → jobNames !! i ≠ Some key) →
        generatedContent !! key = None ∧ jobErrors !! key = None).
Proof.
  intros Hnd. induction results as [|result results IH] using rev_ind;
    intros Hlen generatedContent jobErrors Hc.
  - injection Hc as <- <-. split.
    + intros i jobName result _ Hi. by rewrite lookup_nil in Hi.
    + intros key _. by rewrite !lookup_empty.
  - rewrite length_app in Hlen. simpl in Hlen.
    rewrite collect_snoc in Hc.
    destruct (collect jobNames results) as [gc je] eqn:Hprev.
    destruct (IH ltac:(lia) gc je eq_refl) as [Hin Hout]. clear IH.
    destruct (lookup_lt_is_Some_2 jobNames (length results) ltac:(lia))
      as [name Hname].
    assert (∀ i jobName, i < length results →
              jobNames !! i = Some jobName → jobName ≠ name) as Hfresh.
    { intros i jobName Hi Hjob ->.
      pose proof (NoDup_lookup _ _ _ _ Hnd Hjob Hname). lia. }
    destruct (Hout name) as [Hgc Hje].
    { intros i Hi Hjob. by apply (Hfresh i name Hi Hjob). }
    unfold collectOne, jobNameAt in Hc. rewrite Hname in Hc. simpl in Hc.
    split.
    + intros i jobName result' Hjob Hres.
      destruct (decide (i = length results)) as [->|Hne].
      * rewrite list_lookup_middle in Hres by done.
        injection Hres as <-. rewrite Hname in Hjob. injection Hjob as <-.
        destruct result; injection Hc as <- <-;
          by rewrite lookup_insert_eq.
      * assert (i < length results) as Hi.
        { apply lookup_lt_Some in Hres. rewrite length_app in Hres.
          simpl in Hres. lia. }
        rewrite lookup_app_l in Hres by done.
        pose proof (Hfresh i jobName Hi Hjob) as Hneq.
        pose proof (Hin i jobName result' Hjob Hres) as Hold.
        destruct result; injection Hc as <- <-;
          destruct result'; by rewrite ?lookup_insert_ne.
    + intros key Hkey. rewrite length_app in Hkey. simpl in Hkey.
      assert (key ≠ name) as Hneq.
      { intros ->. by apply (Hkey (length results) ltac:(lia)). }
      destruct (Hout key) as [Hgc' Hje'].
      { intros i Hi. apply Hkey. lia. }
      destruct result; injection Hc as <- <-;
        by rewrite ?lookup_insert_ne.
Qed.

(** The aggregation of lines 111-130 on the outcomes of distinctly named
    jobs: each job is recorded under its own name on the side its outcome
    calls for, and no other key is written. *)
Lemma collect_allSettled jobNames (outcome : string → Outcome Content)
    generatedContent jobErrors :
  NoDup jobNames →
  collect jobNames (allSettled (outcome <$> jobNames))
    = (generatedContent, jobErrors) →
  (∀ jobName, jobName ∈ jobNames →
     recordedAs jobName (outcome jobName) generatedContent jobErrors) ∧
  (∀ key, key ∉ jobNames →
     generatedContent !! key = None ∧ jobErrors !! key = None).
Proof.
  intros Hnd Hc.
  assert (length (allSettled (outcome <$> jobNames)) ≤ length jobNames)%nat
    as Hlen by (unfold allSettled; by rewrite !length_fmap).
  destruct (collect_inv jobNames _ Hnd Hlen _ _ Hc) as [Hin Hout].
  split.
  - intros jobName [i Hi]%list_elem_of_lookup.
    specialize (Hin i jobName (settledResult (outcome jobName)) Hi).
    unfold allSettled in Hin. rewrite !list_lookup_fmap, Hi in Hin.
    specialize (Hin eq_refl). unfold recordedAs.
    by destruct (outcome jobName).
  - intros key Hkey. apply Hout. intros i _ Hi.
    apply Hkey, list_elem_of_lookup. eauto.
Qed.

(** A run whose spine succeeds: the calls it makes and what it returns. *)
Lemma tryBlock_success w projectId fileUrl plan transcript
    generatedContent jobErrors :
  (∀ id, stepOutcome w id = None) →
  transcribeOutcome w fileUrl projectId plan = Resolves transcript →
  collect (jobNamesFor plan)
    (allSettled ((λ jobName, jobOutcome w jobName transcript)
                   <$> jobNamesFor plan))
    = (generatedContent, jobErrors) →
  tryBlock w projectId fileUrl plan =
    (successTrace projectId fileUrl plan transcript (jobNamesFor plan)
       generatedContent jobErrors,
     Normal {| success := true;
               result_projectId := projectId;
               result_plan := plan |}).
Proof.
  intros Hsteps Htr Hc.
  unfold tryBlock, step_run, step_transcribe, successTrace.
  rewrite !Hsteps, Htr. cbn [bind]. rewrite buildJobs_spec. cbn [bind].
  rewrite Hc. destruct (0 <? size jobErrors)%nat; reflexivity.
Qed.

Lemma podcastProcessor_success w event transcript generatedContent jobErrors :
  spineSucceeds w event transcript →
  collect (jobNamesFor (or_else (plan event) "free"))
    (allSettled ((λ jobName, jobOutcome w jobName transcript)
                   <$> jobNamesFor (or_else (plan event) "free")))
    = (generatedContent, jobErrors) →
  podcastProcessor w event =
    (successTrace (projectId event) (fileUrl event)
       (or_else (plan event) "free") transcript
       (jobNamesFor (or_else (plan event) "free"))
       generatedContent jobErrors,
     Normal {| success := true;
               result_projectId := projectId event;
               result_plan := or_else (plan event) "free" |}).
Proof.
  intros [Hsteps Htr] Hc. unfold podcastProcessor.
  by rewrite (tryBlock_success _ _ _ _ _ _ _ Hsteps Htr Hc).
Qed.

(** The [catch] block: one [recordError] call labelled ["workflow"], whose
    own outcome is discarded, then the caught value thrown again. *)
Lemma catchBlock_spec w projectId error :
  catchBlock w projectId error =
    ([recordError projectId
        (if instanceofError error then message error
         else "Unknown error occurred")
        "workflow"
        (statusCodeOf error)
        (if instanceofError error then stack error
         else Some (toString error))],
     Throw error).
Proof.
  unfold catchBlock, mutation_recordError.
  destruct (recordErrorOutcome w); reflexivity.
Qed.

Lemma recordsNothing_bind {A B} (m : M Transcript Content A)
    (f : A → M Transcript Content B) :
  recordsNothing m → (∀ a, recordsNothing (f a)) → recordsNothing (bind m f).
Proof.
  unfold recordsNothing, bind. intros Hm Hf.
  destruct m as [t [a | e]]; [| done].
  specialize (Hf a). destruct (f a) as [t' c]. simpl in *.
  by apply Forall_app.
Qed.

Lemma recordsNothing_ret {A} (a : A) :
  recordsNothing (ret a : M Transcript Content A).
Proof. by apply Forall_nil. Qed.

Lemma recordsNothing_step_run w id call :
  isRecordError call = false → recordsNothing (step_run w id call).
Proof. intros Hcall. by apply Forall_singleton. Qed.

Lemma recordsNothing_launch w jobName transcript :
  recordsNothing (launch w jobName transcript).
Proof. by apply Forall_singleton. Qed.

Lemma recordsNothing_buildJobs w plan transcript :
  recordsNothing (buildJobs w plan transcript).
Proof.
  rewrite buildJobs_spec. unfold recordsNothing. cbn [fst].
  apply Forall_fmap, Forall_forall. done.
Qed.

(** The [try] block itself never calls [recordError]. *)
Lemma recordsNothing_tryBlock w projectId fileUrl plan :
  recordsNothing (tryBlock w projectId fileUrl plan).
Proof.
  unfold tryBlock.
  repeat first
    [ apply recordsNothing_buildJobs
    | by apply recordsNothing_step_run
    | by apply Forall_singleton
    | apply recordsNothing_ret
    | match goal with
      | |- recordsNothing (let '(_, _) := ?x in _) => destruct x
      | |- recordsNothing (if ?b then _ else _) => destruct b
      end
    | apply recordsNothing_bind; [| intros ?] ].
Qed.

(** C1.  For every plan and every mix of outcomes of the generation jobs,
    the fan-out and its aggregation do not raise: in a run whose spine steps
    succeed, the workflow goes past the fan-out to the generation-completed
    mutation and the persistence step and returns success; every selected
    job is recorded by its outcome, a fulfilled one in [generatedContent]
    and a failed one, with its message, in [jobErrors], which is saved when
    it is not empty. *)
Theorem generation_never_raises w event transcript :
  spineSucceeds w event transcript →
  ∃ generatedContent jobErrors,
    podcastProcessor w event =
      (successTrace (projectId event) (fileUrl event)
         (or_else (plan event) "free") transcript
         (selectedJobNames w (or_else (plan event) "free") transcript)
         generatedContent jobErrors,
       Normal {| success := true;
                 result_projectId := projectId event;
                 result_plan := or_else (plan event) "free" |}) ∧
    (∀ jobName,
       jobName ∈ selectedJobNames w (or_else (plan event) "free") transcript →
       recordedAs jobName (jobOutcome w jobName transcript)
         generatedContent jobErrors) ∧
    (∀ key,
       key ∉ selectedJobNames w (or_else (plan event) "free") transcript →
       generatedContent !! key = None ∧ jobErrors !! key = None).
Proof.
  intros Hspine. rewrite selectedJobNames_spec.
  destruct (collect (jobNamesFor (or_else (plan event) "free"))
              (allSettled ((λ jobName, jobOutcome w jobName transcript)
                 <$> jobNamesFor (or_else (plan event) "free"))))
    as [generatedContent jobErrors] eqn:Hc.
  exists generatedContent, jobErrors. split.
  - by apply podcastProcessor_success.
  - by apply (collect_allSettled _
                (λ jobName, jobOutcome w jobName transcript) _ _
                (jobNamesFor_NoDup _)).
Qed.

(** C3.  After the aggregation that follows the fan-out, each job name
    selected for the plan is a key of exactly one of [generatedContent] and
    [jobErrors], whatever the outcomes of the jobs. *)
Theorem selected_job_in_exactly_one w plan transcript calls jobs jobNames
    generatedContent jobErrors jobName :
  buildJobs w plan transcript = (calls, Normal (jobs, jobNames)) →
  collect jobNames (allSettled jobs) = (generatedContent, jobErrors) →
  jobName ∈ jobNames →
  ((jobName ∈ dom generatedContent) ∧ (jobName ∉ dom jobErrors)) ∨
  ((jobName ∉ dom generatedContent) ∧ (jobName ∈ dom jobErrors)).
Proof.
  rewrite buildJobs_spec. intros Hb Hc Hin.
  injection Hb as _ <- <-.
  destruct (collect_allSettled _
              (λ jobName, jobOutcome w jobName transcript) _ _
              (jobNamesFor_NoDup _) Hc) as [Hrec _].
  specialize (Hrec jobName Hin). unfold recordedAs in Hrec.
  rewrite !not_elem_of_dom, !elem_of_dom.
  destruct (jobOutcome w jobName transcript); destruct Hrec as [-> ->];
    [left | right]; eauto.
Qed.

(** C4.  The job selection: free runs the summary alone, pro adds social
    posts, titles and hashtags, ultra adds key moments and YouTube
    timestamps; the selections are nested and the summary is selected for
    every plan. *)
Theorem job_selection_policy w transcript :
  selectedJobNames w "free" transcript = ["summary"] ∧
  selectedJobNames w "pro" transcript =
    ["summary"; "socialPosts"; "titles"; "hashtags"] ∧
  selectedJobNames w "ultra" transcript =
    ["summary"; "socialPosts"; "titles"; "hashtags";
     "keyMoments"; "youtubeTimestamps"] ∧
  selectedJobNames w "free" transcript ⊆ selectedJobNames w "pro" transcript ∧
  selectedJobNames w "pro" transcript ⊆ selectedJobNames w "ultra" transcript ∧
  ∀ plan, "summary" ∈ selectedJobNames w plan transcript.
Proof.
  rewrite !selectedJobNames_spec.
  split; [done | split; [done | split; [done |]]].
  split; [| split].
  - intros jobName. cbn. rewrite !elem_of_cons. tauto.
  - intros jobName. cbn. rewrite !elem_of_cons. tauto.
  - intros plan. rewrite selectedJobNames_spec. apply list_elem_of_here.
Qed.

(** C5.  When the transcription step fails, the run stops there: no
    generation job is started, no mutation sets [contentGeneration] to
    running, [recordError] is called once, with the step label
    ["workflow"], and then the transcription's error is thrown. *)
Theorem transcription_failure_aborts w event error :
  stepOutcome w "update-status-processing" = None →
  stepOutcome w "update-job-status-transcription-running" = None →
  transcribeOutcome w (fileUrl event) (projectId event)
    (or_else (plan event) "free") = Rejects error →
  podcastProcessor w event =
    ([ updateProjectStatus (projectId event) "processing";
       updateJobStatus (projectId event) "transcription" "running";
       transcribeWithAssemblyAI (fileUrl event) (projectId event)
         (or_else (plan event) "free");
       recordError (projectId event)
         (if instanceofError error then message error
          else "Unknown error occurred")
         "workflow"
         (statusCodeOf error)
         (if instanceofError error then stack error
          else Some (toString error)) ],
     Throw error).
Proof.
  intros H1 H2 Htr. unfold podcastProcessor, tryBlock.
  unfold step_run at 1 2. unfold step_transcribe.
  rewrite H1, H2, Htr. cbn [bind try_catch app].
  by rewrite catchBlock_spec.
Qed.

(** C6.  Whenever the [try] block throws, the handler calls [recordError]
    once (the [try] block makes no such call) and then throws the value it
    caught; this holds whether the [recordError] call succeeds or fails, so
    a failure of the recording is never what the caller sees. *)
Theorem handler_rethrows_original w event calls error :
  tryBlock w (projectId event) (fileUrl event) (or_else (plan event) "free")
    = (calls, Throw error) →
  podcastProcessor w event =
    (calls ++
       [recordError (projectId event)
          (if instanceofError error then message error
           else "Unknown error occurred")
          "workflow"
          (statusCodeOf error)
          (if instanceofError error then stack error
           else Some (toString error))],
     Throw error) ∧
  Forall (λ call, isRecordError call = false) calls.
Proof.
  intros Htry. split.
  - unfold podcastProcessor. rewrite Htry.
    cbn [try_catch]. by rewrite catchBlock_spec.
  - pose proof (recordsNothing_tryBlock w (projectId event) (fileUrl event)
                  (or_else (plan event) "free")) as Hquiet.
    unfold recordsNothing in Hquiet. by rewrite Htry in Hquiet.
Qed.

(** C9.  An event whose plan is not one of pro and ultra (an unknown or
    unrecognised value, an absent one, or free itself) gets the free tier's
    jobs: the summary is the only job selected, and when the spine steps
    succeed the run starts that one job and returns normally. *)
Theorem unknown_plan_runs_free_tier w event transcript :
  plan event ≠ Some "pro" →
  plan event ≠ Some "ultra" →
  selectedJobNames w (or_else (plan event) "free") transcript = ["summary"] ∧
  selectedJobNames w (or_else (plan event) "free") transcript
    = selectedJobNames w "free" transcript ∧
  (spineSucceeds w event transcript →
   ∃ generatedContent jobErrors result,
     podcastProcessor w event =
       (successTrace (projectId event) (fileUrl event)
          (or_else (plan event) "free") transcript ["summary"]
          generatedContent jobErrors,
        Normal result)).
Proof.
  intros Hpro Hultra.
  assert (jobNamesFor (or_else (plan event) "free") = ["summary"]) as Hnames.
  { unfold jobNamesFor.
    assert (or_else (plan event) "free" ≠ "pro") as Hp.
    { unfold or_else. destruct (plan event) as [s|]; [|done].
      destruct (String.eqb_spec s ""); [done | congruence]. }
    assert (or_else (plan event) "free" ≠ "ultra") as Hu.
    { unfold or_else. destruct (plan event) as [s|]; [|done].
      destruct (String.eqb_spec s ""); [done | congruence]. }
    apply String.eqb_neq in Hp, Hu. by rewrite Hp, Hu. }
  rewrite !selectedJobNames_spec, Hnames. split; [done | split; [done |]].
  intros Hspine.
  destruct (collect (jobNamesFor (or_else (plan event) "free"))
              (allSettled ((λ jobName, jobOutcome w jobName transcript)
                 <$> jobNamesFor (or_else (plan event) "free"))))
    as [generatedContent jobErrors] eqn:Hc.
  exists generatedContent, jobErrors. eexists.
  rewrite (podcastProcessor_success _ _ _ _ _ Hspine Hc). by rewrite Hnames.
Qed.

(** C10.  A successful run returns [{success: true, projectId, plan}] in
    which [plan] is the event's plan string as it came whenever that string
    is not empty, recognised or not, and is ["free"] only when the event has
    no plan or an empty one. *)
Theorem success_echoes_raw_plan w event transcript :
  spineSucceeds w event transcript →
  ∃ calls result,
    podcastProcessor w event = (calls, Normal result) ∧
    success result = true ∧
    result_projectId result = projectId event ∧
    result_plan result =
      match plan event with
      | Some raw => if decide (raw = "") then "free" else raw
      | None => "free"
      end.
Proof.
  intros Hspine.
  destruct (collect (jobNamesFor (or_else (plan event) "free"))
              (allSettled ((λ jobName, jobOutcome w jobName transcript)
                 <$> jobNamesFor (or_else (plan event) "free"))))
    as [generatedContent jobErrors] eqn:Hc.
  rewrite (podcastProcessor_success _ _ _ _ _ Hspine Hc).
  eexists _, _. split; [reflexivity |]. cbn.
  split; [done | split; [done |]].
  unfold or_else. destruct (plan event) as [raw|]; [|done].
  destruct (String.eqb_spec raw ""); by case_decide.
Qed.

End WorkflowProofs.

(** ** The workflow on concrete runs *)

Section WorkflowRuns.
Import JsRuntime PodcastProcessor WorkflowSpec.

(** C1 at plan pro with only the titles job rejected. *)
Lemma generation_never_raises_witness :
  ∃ (generatedContent : gmap string string) (jobErrors : gmap string string),
    podcastProcessor Scenarios.titlesFail (Scenarios.event (Some "pro")) =
      (successTrace "project-1" "https://blob.example/audio.mp3"
         "pro" "transcript"
         (selectedJobNames Scenarios.titlesFail "pro" "transcript")
         generatedContent jobErrors,
       Normal {| success := true;
                 result_projectId := "project-1";
                 result_plan := "pro" |}) ∧
    (∀ jobName,
       jobName ∈ selectedJobNames Scenarios.titlesFail "pro" "transcript" →
       recordedAs jobName (jobOutcome Scenarios.titlesFail jobName "transcript")
         generatedContent jobErrors) ∧
    (∀ key,
       key ∉ selectedJobNames Scenarios.titlesFail "pro" "transcript" →
       generatedContent !! key = None ∧ jobErrors !! key = None).
Proof.
  apply (generation_never_raises Scenarios.titlesFail
           (Scenarios.event (Some "pro")) "transcript").
  split; [intros id; reflexivity | reflexivity].
Defined.

(** The run of the witness above, evaluated: plan pro, only the titles job
    failing. *)
Example titles_failure_run :
  podcastProcessor Scenarios.titlesFail (Scenarios.event (Some "pro")) =
    ([ updateProjectStatus "project-1" "processing";
       updateJobStatus "project-1" "transcription" "running";
       transcribeWithAssemblyAI "https://blob.example/audio.mp3"
         "project-1" "pro";
       updateJobStatus "project-1" "transcription" "completed";
       updateJobStatus "project-1" "contentGeneration" "running";
       generate "summary" "transcript";
       generate "socialPosts" "transcript";
       generate "titles" "transcript";
       generate "hashtags" "transcript";
       saveJobErrors "project-1" {[ "titles" := "429 rate limit exceeded" ]};
       updateJobStatus "project-1" "contentGeneration" "completed";
       saveResultsToConvex "project-1"
         (<["summary" := "summary"]>
            (<["socialPosts" := "socialPosts"]>
               {[ "hashtags" := "hashtags" ]})) ],
     Normal {| success := true;
               result_projectId := "project-1";
               result_plan := "pro" |}).
Proof. vm_compute. reflexivity. Qed.

(** C3 at the same run, for the rejected titles job. *)
Lemma selected_job_in_exactly_one_witness :
  (("titles" ∈ dom (<["summary" := "summary"]>
                     (<["socialPosts" := "socialPosts"]>
                        ({[ "hashtags" := "hashtags" ]} : gmap string string)))) ∧
   ("titles" ∉ dom ({[ "titles" := "429 rate limit exceeded" ]}
                     : gmap string string))) ∨
  (("titles" ∉ dom (<["summary" := "summary"]>
                     (<["socialPosts" := "socialPosts"]>
                        ({[ "hashtags" := "hashtags" ]} : gmap string string)))) ∧
   ("titles" ∈ dom ({[ "titles" := "429 rate limit exceeded" ]}
                     : gmap string string))).
Proof.
  eapply (selected_job_in_exactly_one Scenarios.titlesFail "pro" "transcript").
  - reflexivity.
  - vm_compute. reflexivity.
  - apply (bool_decide_unpack _). vm_compute. exact I.
Defined.

(** C5 at plan ultra with the transcription rejected. *)
Lemma transcription_failure_aborts_witness :
  podcastProcessor Scenarios.transcriptionFails (Scenarios.event (Some "ultra")) =
    ([ updateProjectStatus "project-1" "processing";
       updateJobStatus "project-1" "transcription" "running";
       transcribeWithAssemblyAI "https://blob.example/audio.mp3"
         "project-1" "ultra";
       recordError "project-1" "429 rate limit exceeded" "workflow"
         (Some 429%Z) (Some "Error: 429 rate limit exceeded") ],
     Throw Scenarios.rateLimited).
Proof.
  apply (transcription_failure_aborts Scenarios.transcriptionFails
           (Scenarios.event (Some "ultra")) Scenarios.rateLimited);
    reflexivity.
Defined.

(** C6 where the generation-completed mutation fails with [rateLimited]
    and the recording of that failure fails with [storeDown]: the caller
    sees [rateLimited]. *)
Lemma handler_rethrows_original_witness :
  podcastProcessor Scenarios.recordingFails (Scenarios.event None) =
    ([ updateProjectStatus "project-1" "processing";
       updateJobStatus "project-1" "transcription" "running";
       transcribeWithAssemblyAI "https://blob.example/audio.mp3"
         "project-1" "free";
       updateJobStatus "project-1" "transcription" "completed";
       updateJobStatus "project-1" "contentGeneration" "running";
       generate "summary" "transcript";
       updateJobStatus "project-1" "contentGeneration" "completed" ] ++
     [ recordError "project-1" "429 rate limit exceeded" "workflow"
         (Some 429%Z) (Some "Error: 429 rate limit exceeded") ],
     Throw Scenarios.rateLimited).
Proof.
  apply (handler_rethrows_original Scenarios.recordingFails
           (Scenarios.event None) _ Scenarios.rateLimited).
  vm_compute. reflexivity.
Defined.

(** In that run the recording does fail. *)
Example recording_fails_in_that_run :
  recordErrorOutcome Scenarios.recordingFails = Some Scenarios.storeDown ∧
  mutation_recordError Scenarios.recordingFails "project-1"
    Scenarios.rateLimited
    = ([ recordError "project-1" "429 rate limit exceeded" "workflow"
           (Some 429%Z) (Some "Error: 429 rate limit exceeded") ],
       Throw Scenarios.storeDown).
Proof. split; reflexivity. Qed.

(** C9 at the unrecognised plan ["enterprise"]. *)
Lemma unknown_plan_runs_free_tier_witness :
  selectedJobNames Scenarios.allGood
    (or_else (Some "enterprise") "free") "transcript" = ["summary"] ∧
  ∃ (generatedContent : gmap string string) (jobErrors : gmap string string)
    result,
    podcastProcessor Scenarios.allGood (Scenarios.event (Some "enterprise")) =
      (successTrace "project-1" "https://blob.example/audio.mp3"
         "enterprise" "transcript" ["summary"] generatedContent jobErrors,
       Normal result).
Proof.
  destruct (unknown_plan_runs_free_tier Scenarios.allGood
              (Scenarios.event (Some "enterprise")) "transcript")
    as (Hselected & _ & Hrun).
  - apply (bool_decide_unpack _). vm_compute. exact I.
  - apply (bool_decide_unpack _). vm_compute. exact I.
  - split; [exact Hselected |].
    apply Hrun. split; [intros id; reflexivity | reflexivity].
Defined.

(** C10 at the unrecognised plan ["enterprise"], echoed as it came. *)
Lemma success_echoes_raw_plan_witness :
  ∃ calls result,
    podcastProcessor Scenarios.allGood (Scenarios.event (Some "enterprise"))
      = (calls, Normal result) ∧
    success result = true ∧
    result_projectId result = "project-1" ∧
    result_plan result = "enterprise".
Proof.
  apply (success_echoes_raw_plan Scenarios.allGood
           (Scenarios.event (Some "enterprise")) "transcript").
  split; [intros id; reflexivity | reflexivity].
Defined.

(** The same request with no plan, and with an empty one, reports free. *)
Example absent_plan_reports_free :
  snd (podcastProcessor Scenarios.allGood (Scenarios.event None)) =
    Normal {| success := true; result_projectId := "project-1";
              result_plan := "free" |} ∧
  snd (podcastProcessor Scenarios.allGood (Scenarios.event (Some ""))) =
    Normal {| success := true; result_projectId := "project-1";
              result_plan := "free" |}.
Proof. split; vm_compute; reflexivity. Qed.

End WorkflowRuns.

(** ** The progress estimator *)

Section ProgressProofs.
Import CompactProgress ProgressSpec.
Local Open Scope Q_scope.

Variable PROGRESS_CAP_PERCENTAGE : Q.
Variable estimateAssemblyAITime : option Q → Estimate.
Variable fileDuration : option Q.
Variable createdAt : Q.

(** The component always tracks the same six steps. *)
Lemma totalSteps_six jobStatus : totalSteps jobStatus = 6%nat.
Proof. reflexivity. Qed.

Lemma completedSteps_le_six jobStatus : (completedSteps jobStatus ≤ 6)%nat.
Proof.
  unfold completedSteps. rewrite <- (totalSteps_six jobStatus).
  apply List.filter_length_le.
Qed.

Lemma isGenerated_spec jobStatus :
  isGenerated jobStatus = (completedSteps jobStatus =? 6)%nat.
Proof. reflexivity. Qed.

Lemma transcribed_not_transcribing jobStatus :
  isTranscribed jobStatus = true → isTranscribing jobStatus = false.
Proof.
  unfold isTranscribed, isTranscribing.
  destruct (transcriptionStatus jobStatus) as [s|]; simpl; [|done].
  intros ->%String.eqb_eq. reflexivity.
Qed.

(** The step-based value of phase 2, for [c] completed steps. *)
Lemma phase2_value (c : nat) :
  inject_Z (Z.of_nat c) / inject_Z (Z.of_nat 6) * 50
  == inject_Z (Z.of_nat c) * (25 # 3).
Proof. change (inject_Z (Z.of_nat 6)) with (6 # 1). field. Qed.

(** The effect, absent failures, by the position of the transcription
    flag. *)
Lemma effect_no_failure jobStatus progress now :
  anyFailed jobStatus = false →
  effect PROGRESS_CAP_PERCENTAGE estimateAssemblyAITime
    jobStatus fileDuration createdAt progress now ==
    match transcriptionRank jobStatus with
    | 0%nat => 10
    | 1%nat =>
        updateProgress PROGRESS_CAP_PERCENTAGE estimateAssemblyAITime
          fileDuration createdAt now
    | _ =>
        if (completedSteps jobStatus =? 6)%nat then 100
        else 50 + inject_Z (Z.of_nat (completedSteps jobStatus)) * (25 # 3)
    end.
Proof.
  intros Hok. unfold effect, transcriptionRank.
  rewrite Hok, isGenerated_spec, totalSteps_six.
  destruct (isTranscribed jobStatus) eqn:Htd.
  - rewrite (transcribed_not_transcribing _ Htd). simpl.
    destruct (completedSteps jobStatus =? 6)%nat; [reflexivity |].
    by rewrite phase2_value.
  - simpl. destruct (isTranscribing jobStatus); reflexivity.
Qed.

(** Phase 1 never exceeds 50. *)
Lemma updateProgress_le_50 now :
  updateProgress PROGRESS_CAP_PERCENTAGE estimateAssemblyAITime
    fileDuration createdAt now <= 50.
Proof. unfold updateProgress. apply Q.le_min_l. Qed.

(** Phase 1 grows with the clock, for a positive estimate and cap. *)
Lemma updateProgress_mono now1 now2 :
  0 < PROGRESS_CAP_PERCENTAGE →
  0 < conservative (estimateAssemblyAITime fileDuration) →
  now1 <= now2 →
  updateProgress PROGRESS_CAP_PERCENTAGE estimateAssemblyAITime
    fileDuration createdAt now1
  <= updateProgress PROGRESS_CAP_PERCENTAGE estimateAssemblyAITime
       fileDuration createdAt now2.
Proof.
  intros Hcap Hest Hnow. unfold updateProgress.
  apply Q.min_le_compat_l.
  apply Qmult_le_compat_r; [| done].
  apply Qmult_le_compat_r; [| by apply Qlt_le_weak, Qinv_lt_0_compat].
  apply Q.min_le_compat_l.
  apply Qmult_le_compat_r; [| done].
  apply Qmult_le_compat_r; [| by apply Qlt_le_weak, Qinv_lt_0_compat].
  rewrite <- Zle_Qle. apply Qfloor_resp_le.
  apply Qmult_le_compat_r; [| done].
  unfold Qminus. by apply Qplus_le_compat; [| apply Qle_refl].
Qed.

Lemma phase2_bounds (c : nat) :
  (c ≤ 6)%nat →
  50 <= 50 + inject_Z (Z.of_nat c) * (25 # 3) ∧
  50 + inject_Z (Z.of_nat c) * (25 # 3) <= 100.
Proof.
  intros Hc.
  assert (0 <= inject_Z (Z.of_nat c)) as H0
    by (change 0 with (inject_Z 0); rewrite <- Zle_Qle; lia).
  assert (inject_Z (Z.of_nat c) <= 6) as H6
    by (change 6 with (inject_Z 6); rewrite <- Zle_Qle; lia).
  split; lra.
Qed.

Lemma phase2_mono (c1 c2 : nat) :
  (c1 ≤ c2)%nat →
  50 + inject_Z (Z.of_nat c1) * (25 # 3)
  <= 50 + inject_Z (Z.of_nat c2) * (25 # 3).
Proof.
  intros Hc.
  assert (inject_Z (Z.of_nat c1) <= inject_Z (Z.of_nat c2)) as H
    by (rewrite <- Zle_Qle; lia).
  lra.
Qed.

(** When the clock has not moved since [createdAt], phase 1 shows 0,
    whatever the positive estimate and cap. *)
Lemma updateProgress_at_start :
  0 < PROGRESS_CAP_PERCENTAGE →
  0 < conservative (estimateAssemblyAITime fileDuration) →
  updateProgress PROGRESS_CAP_PERCENTAGE estimateAssemblyAITime
    fileDuration createdAt createdAt == 0.
Proof.
  intros Hcap%Qlt_le_weak _. unfold updateProgress.
  assert ((createdAt - createdAt) / 1000 == 0) as -> by (field; done).
  change (inject_Z (Qfloor 0)) with 0.
  assert (0 / conservative (estimateAssemblyAITime fileDuration) * 100 == 0)
    as -> by (unfold Qdiv; ring).
  rewrite (Q.min_r _ _ Hcap).
  assert (0 / PROGRESS_CAP_PERCENTAGE * 50 == 0) as ->
    by (unfold Qdiv; ring).
  by apply Q.min_r.
Qed.

(** C7, amended.  With the transcription completed and nothing failed, the
    estimator counts the completed ones among six fixed steps (key moments,
    summary, social posts, titles, hashtags, YouTube timestamps), whether or
    not a step carries a status: while fewer than six are completed the
    percent is [50 + completedSteps / 6 * 50] under the generating label,
    and once the six are completed it is 100 under the complete label. *)
Theorem phase2_percent jobStatus progress now :
  get jobStatus transcription = Some "completed" →
  anyFailed jobStatus = false →
  totalSteps jobStatus = 6%nat ∧
  ((completedSteps jobStatus < 6)%nat →
     effect PROGRESS_CAP_PERCENTAGE estimateAssemblyAITime
       jobStatus fileDuration createdAt progress now
     == 50 + inject_Z (Z.of_nat (completedSteps jobStatus))
             / inject_Z (Z.of_nat (totalSteps jobStatus)) * 50 ∧
     statusText jobStatus = "✨ Generating content...") ∧
  (completedSteps jobStatus = 6%nat →
     effect PROGRESS_CAP_PERCENTAGE estimateAssemblyAITime
       jobStatus fileDuration createdAt progress now == 100 ∧
     statusText jobStatus = "✅ Complete").
Proof.
  intros Htr Hok.
  assert (isTranscribed jobStatus = true) as Htd
    by (unfold isTranscribed, transcriptionStatus; by rewrite Htr).
  pose proof (transcribed_not_transcribing _ Htd) as Htg.
  split; [reflexivity |].
  unfold effect, statusText.
  rewrite Hok, Htd, Htg, isGenerated_spec, totalSteps_six.
  split.
  - intros Hlt. assert ((completedSteps jobStatus =? 6)%nat = false) as ->
      by (apply Nat.eqb_neq; lia).
    split; reflexivity.
  - intros ->. split; reflexivity.
Qed.

(** C8, amended.  Absent failures, between two evaluations in which the
    clock and the number of completed steps have not decreased and the
    transcription flag has not moved backwards, the percent does not
    decrease, provided the pair is not the step from the not-started
    placeholder to the running phase (and the estimate and the cap are
    positive). *)
Theorem percent_monotone jobStatus1 jobStatus2 progress1 progress2 now1 now2 :
  0 < PROGRESS_CAP_PERCENTAGE →
  0 < conservative (estimateAssemblyAITime fileDuration) →
  anyFailed jobStatus1 = false →
  anyFailed jobStatus2 = false →
  now1 <= now2 →
  (completedSteps jobStatus1 ≤ completedSteps jobStatus2)%nat →
  (transcriptionRank jobStatus1 ≤ transcriptionRank jobStatus2)%nat →
  ¬ (transcriptionRank jobStatus1 = 0%nat ∧
     transcriptionRank jobStatus2 = 1%nat) →
  effect PROGRESS_CAP_PERCENTAGE estimateAssemblyAITime
    jobStatus1 fileDuration createdAt progress1 now1
  <= effect PROGRESS_CAP_PERCENTAGE estimateAssemblyAITime
       jobStatus2 fileDuration createdAt progress2 now2.
Proof.
  intros Hcap Hest Hok1 Hok2 Hnow Hc Hrank Hstart.
  rewrite (effect_no_failure _ _ _ Hok1), (effect_no_failure _ _ _ Hok2).
  pose proof (completedSteps_le_six jobStatus1) as Hc1.
  pose proof (completedSteps_le_six jobStatus2) as Hc2.
  pose proof (phase2_bounds _ Hc1) as [Hlo1 Hhi1].
  pose proof (phase2_bounds _ Hc2) as [Hlo2 Hhi2].
  pose proof (updateProgress_le_50 now1) as Hp1.
  destruct (transcriptionRank jobStatus1) as [|[|r1]],
           (transcriptionRank jobStatus2) as [|[|r2]];
    try lia.
  - apply Qle_refl.
  - destruct (completedSteps jobStatus2 =? 6)%nat; lra.
  - by apply updateProgress_mono.
  - destruct (completedSteps jobStatus2 =? 6)%nat; lra.
  - destruct (completedSteps jobStatus1 =? 6)%nat eqn:E1,
             (completedSteps jobStatus2 =? 6)%nat eqn:E2.
    + apply Qle_refl.
    + apply Nat.eqb_eq in E1. apply Nat.eqb_neq in E2. lia.
    + lra.
    + by apply phase2_mono.
Qed.

End ProgressProofs.

(** ** The progress estimator on concrete inputs *)

Section ProgressRuns.
Import CompactProgress ProgressSpec ProgressScenarios.
Local Open Scope Q_scope.

(** C7, amended, at three and at six completed steps. *)
Lemma phase2_percent_witness :
  effect cap estimate threeOfSix None 0 0 0 == 75 ∧
  statusText threeOfSix = "✨ Generating content..." ∧
  effect cap estimate sixOfSix None 0 0 0 == 100 ∧
  statusText sixOfSix = "✅ Complete".
Proof.
  destruct (phase2_percent cap estimate None 0 threeOfSix 0 0
              eq_refl eq_refl) as (_ & Hpart & _).
  destruct (phase2_percent cap estimate None 0 sixOfSix 0 0
              eq_refl eq_refl) as (_ & _ & Hall).
  destruct Hpart as [Hpercent Hlabel]; [vm_compute; lia |].
  destruct Hall as [Hpercent' Hlabel']; [reflexivity |].
  split; [| split; [exact Hlabel | split; [exact Hpercent' | exact Hlabel']]].
  rewrite Hpercent. vm_compute. reflexivity.
Defined.

(** C7 as stated fails: a pro run tracks four jobs, yet the estimator divides by six: with two
    of the four completed it shows 200/3, not 75, and with the four
    completed it shows 250/3 under the generating label, not 100 under the
    complete one. *)
Lemma phase2_two_of_four_counterexample :
  get proTwoOfFour transcription = Some "completed" ∧
  anyFailed proTwoOfFour = false ∧
  stepsWithStatus proTwoOfFour = 4%nat ∧
  completedSteps proTwoOfFour = 2%nat ∧
  effect cap estimate proTwoOfFour None 0 0 0 == 200 # 3 ∧
  ¬ effect cap estimate proTwoOfFour None 0 0 0 == 50 + (2 / 4) * 50 ∧
  stepsWithStatus proFourOfFour = 4%nat ∧
  completedSteps proFourOfFour = 4%nat ∧
  anyFailed proFourOfFour = false ∧
  ¬ effect cap estimate proFourOfFour None 0 0 0 == 100 ∧
  statusText proFourOfFour ≠ "✅ Complete".
Proof.
  repeat split; try reflexivity; vm_compute; discriminate.
Qed.

(** C8, amended, from the running phase to three completed steps. *)
Lemma percent_monotone_witness :
  effect cap estimate transcribing None 0 0 1000
  <= effect cap estimate threeOfSix None 0 (5 # 8) 5000.
Proof.
  apply (percent_monotone cap estimate None 0 transcribing threeOfSix
           0 (5 # 8) 1000 5000).
  - reflexivity.
  - reflexivity.
  - reflexivity.
  - reflexivity.
  - vm_compute. discriminate.
  - vm_compute. lia.
  - vm_compute. lia.
  - vm_compute. intros [H _]. discriminate H.
Defined.

(** C8 as stated fails, from not started (10) to running one second after
    creation (5/8):
    nothing has failed, the clock and the counts have not decreased, the
    flag has moved forward, and the percent has dropped. *)
Lemma percent_regresses_counterexample :
  anyFailed notStarted = false ∧
  anyFailed transcribing = false ∧
  0 <= 1000 ∧
  (completedSteps notStarted ≤ completedSteps transcribing)%nat ∧
  (transcriptionRank notStarted ≤ transcriptionRank transcribing)%nat ∧
  effect cap estimate notStarted None 0 0 0 == 10 ∧
  effect cap estimate transcribing None 0 10 1000 == 5 # 8 ∧
  ¬ effect cap estimate notStarted None 0 0 0
    <= effect cap estimate transcribing None 0 10 1000.
Proof.
  repeat split; try reflexivity; vm_compute; try discriminate; try lia.
  intros H. by apply H.
Qed.

End ProgressRuns.

(** * Further properties *)

(** ** The workflow, whatever its collaborators do *)

Section WorkflowInvariantProofs.
Import JsRuntime PodcastProcessor WorkflowSpec WorkflowInvariants.
Context {Transcript Content : Type}.
Implicit Types (w : World Transcript Content) (event : EventData)
  (transcript : Transcript) (jobNames : list string)
  (generatedContent : gmap string Content) (jobErrors : gmap string string).

Lemma prefix_of_app_cons {X} (x : X) (l k : list X) :
  l `prefix_of` k → (x :: l) `prefix_of` (x :: k).
Proof. apply (prefix_app [x]). Qed.

(** X1.  Whatever fails, a run makes its calls in the order of the
    successful run and skips none: the calls of the [try] block are an
    initial segment of the calls up to the transcription when the
    transcription is rejected, and of the whole sequence of a successful
    run otherwise; they are the whole sequence when the block returns. *)
Theorem tryBlock_calls_in_order w projectId fileUrl plan :
  match transcribeOutcome w fileUrl projectId plan with
  | Rejects _ =>
      fst (tryBlock w projectId fileUrl plan)
        `prefix_of` callsToTranscription projectId fileUrl plan
  | Resolves transcript =>
      ∀ generatedContent jobErrors,
        collect (selectedJobNames w plan transcript)
          (allSettled ((λ jobName, jobOutcome w jobName transcript)
                         <$> selectedJobNames w plan transcript))
          = (generatedContent, jobErrors) →
        fst (tryBlock w projectId fileUrl plan)
          `prefix_of`
          successTrace projectId fileUrl plan transcript
            (selectedJobNames w plan transcript) generatedContent jobErrors ∧
        (∀ result,
           snd (tryBlock w projectId fileUrl plan) = Normal result →
           fst (tryBlock w projectId fileUrl plan) =
             successTrace projectId fileUrl plan transcript
               (selectedJobNames w plan transcript)
               generatedContent jobErrors)
  end.
Proof.
  unfold tryBlock, step_run, step_transcribe, callsToTranscription,
    successTrace.
  destruct (transcribeOutcome w fileUrl projectId plan)
    as [transcript | e] eqn:Htr.
  - intros generatedContent jobErrors Hc.
    rewrite selectedJobNames_spec in *.
    destruct (stepOutcome w "update-status-processing");
      [cbn; split; [by eexists | done] |].
    destruct (stepOutcome w "update-job-status-transcription-running");
      [cbn; split; [by eexists | done] |].
    destruct (stepOutcome w "update-job-status-transcription-completed");
      [cbn; split; [by eexists | done] |].
    destruct (stepOutcome w "update-job-status-generation-running");
      [cbn; split; [by eexists | done] |].
    cbn [bind]. rewrite buildJobs_spec. cbn [bind]. rewrite Hc.
    destruct (0 <? size jobErrors)%nat;
      destruct (stepOutcome w "save-job-errors");
      destruct (stepOutcome w "update-job-status-generation-completed");
      destruct (stepOutcome w "save-results-to-convex");
      cbn; (split; [| done]);
      repeat apply prefix_of_app_cons;
      apply prefix_app, prefix_of_app_cons || apply prefix_app;
      repeat apply prefix_of_app_cons; try apply prefix_nil; done.
  - destruct (stepOutcome w "update-status-processing");
      [cbn; by eexists |].
    destruct (stepOutcome w "update-job-status-transcription-running");
      cbn; by eexists.
Qed.

(** X2.  A run that returns has made no [recordError] call and its [try]
    block returned the same value; a run that throws has made exactly one,
    as its last call, and throws what its [try] block threw. *)
Theorem recordError_once_iff_thrown w event :
  let tried :=
    tryBlock w (projectId event) (fileUrl event)
      (or_else (plan event) "free") in
  match snd (podcastProcessor w event) with
  | Normal result =>
      snd tried = Normal result ∧
      fst (podcastProcessor w event) = fst tried ∧
      Forall (λ call, isRecordError call = false)
        (fst (podcastProcessor w event))
  | Throw error =>
      snd tried = Throw error ∧
      ∃ last,
        fst (podcastProcessor w event) = fst tried ++ [last] ∧
        isRecordError last = true ∧
        Forall (λ call, isRecordError call = false) (fst tried)
  end.
Proof.
  intros tried.
  pose proof (recordsNothing_tryBlock w (projectId event) (fileUrl event)
                (or_else (plan event) "free")) as Hquiet.
  unfold recordsNothing in Hquiet. fold tried in Hquiet.
  unfold podcastProcessor. fold tried.
  destruct tried as [calls [result | error]]; cbn [try_catch].
  - done.
  - rewrite catchBlock_spec. cbn [fst snd]. split; [done |].
    eexists. split; [reflexivity |]. done.
Qed.

Lemma callsSatisfy_bind {A B} (P : Call Transcript Content → Prop)
    (m : M Transcript Content A) (f : A → M Transcript Content B) :
  callsSatisfy P m → (∀ a, callsSatisfy P (f a)) → callsSatisfy P (bind m f).
Proof.
  unfold callsSatisfy, bind. intros Hm Hf.
  destruct m as [t [a | e]]; [| done].
  specialize (Hf a). destruct (f a) as [t' c]. simpl in *.
  by apply Forall_app.
Qed.

Lemma callOfRun_buildJobs w projectId plan transcript :
  callsSatisfy (λ call, callOfRun projectId call = true)
    (buildJobs w plan transcript).
Proof.
  rewrite buildJobs_spec. unfold callsSatisfy. cbn [fst].
  apply Forall_fmap, Forall_forall. done.
Qed.

Lemma callOfRun_tryBlock w projectId fileUrl plan :
  callsSatisfy (λ call, callOfRun projectId call = true)
    (tryBlock w projectId fileUrl plan).
Proof.
  unfold tryBlock.
  repeat first
    [ apply callOfRun_buildJobs
    | apply Forall_nil; done
    | apply Forall_singleton; cbn; by rewrite String.eqb_refl
    | match goal with
      | |- callsSatisfy _ (let '(_, _) := ?x in _) => destruct x
      | |- callsSatisfy _ (if ?b then _ else _) => destruct b
      end
    | apply callsSatisfy_bind; [| intros ?] ].
Qed.

(** X6.  Every call of a run, successful or not, is made on the project of
    the event; the only project status a run writes is ["processing"], the
    only job flags it writes are [transcription] and [contentGeneration],
    and it sets them to ["running"] or ["completed"] only (a failure is
    reported through [recordError], with step ["workflow"], never through a
    flag). *)
Theorem run_calls_on_event_project w event :
  Forall (λ call, callOfRun (projectId event) call = true)
    (fst (podcastProcessor w event)).
Proof.
  pose proof (callOfRun_tryBlock w (projectId event) (fileUrl event)
                (or_else (plan event) "free")) as Htry.
  unfold callsSatisfy in Htry. unfold podcastProcessor.
  destruct (tryBlock w (projectId event) (fileUrl event)
              (or_else (plan event) "free")) as [calls [result | error]];
    cbn [try_catch]; [done |].
  rewrite catchBlock_spec. cbn [fst] in *.
  apply Forall_app. split; [done |].
  apply Forall_singleton. cbn. by rewrite String.eqb_refl.
Qed.

(** The aggregation on the jobs selected for a plan. *)
Lemma collect_selected w plan transcript generatedContent jobErrors :
  collect (selectedJobNames w plan transcript)
    (allSettled ((λ jobName, jobOutcome w jobName transcript)
                   <$> selectedJobNames w plan transcript))
    = (generatedContent, jobErrors) →
  (∀ jobName, jobName ∈ selectedJobNames w plan transcript →
     recordedAs jobName (jobOutcome w jobName transcript)
       generatedContent jobErrors) ∧
  (∀ key, key ∉ selectedJobNames w plan transcript →
     generatedContent !! key = None ∧ jobErrors !! key = None).
Proof.
  rewrite selectedJobNames_spec. intros Hc.
  by apply (collect_allSettled _
              (λ jobName, jobOutcome w jobName transcript) _ _
              (jobNamesFor_NoDup _)).
Qed.

(** [jobErrors] is not empty exactly when a selected job was rejected. *)
Lemma jobErrors_nonempty_iff w plan transcript generatedContent jobErrors :
  collect (selectedJobNames w plan transcript)
    (allSettled ((λ jobName, jobOutcome w jobName transcript)
                   <$> selectedJobNames w plan transcript))
    = (generatedContent, jobErrors) →
  (0 <? size jobErrors)%nat = true ↔
  ∃ jobName reason,
    jobName ∈ selectedJobNames w plan transcript ∧
    jobOutcome w jobName transcript = Rejects reason.
Proof.
  intros [Hin Hout]%collect_selected. rewrite Nat.ltb_lt. split.
  - intros Hsize.
    destruct (map_choose jobErrors) as (key & msg & Hkey).
    { intros ->. rewrite map_size_empty in Hsize. lia. }
    destruct (decide (key ∈ selectedJobNames w plan transcript))
      as [Hsel | Hsel].
    + specialize (Hin key Hsel). unfold recordedAs in Hin.
      destruct (jobOutcome w key transcript) as [v | r] eqn:Ho.
      * destruct Hin as [_ Hnone]. congruence.
      * eauto.
    + destruct (Hout key Hsel) as [_ Hnone]. congruence.
  - intros (jobName & r & Hsel & Ho).
    specialize (Hin jobName Hsel). unfold recordedAs in Hin.
    rewrite Ho in Hin. destruct Hin as [Hje _].
    destruct (decide (size jobErrors = 0%nat)) as [Hz | Hz]; [| lia].
    apply map_size_empty_iff in Hz. subst. by rewrite lookup_empty in Hje.
Qed.

(** X3.  In a run whose spine steps succeed, the job errors are saved
    exactly when at least one selected job was rejected; when every job is
    fulfilled no [saveJobErrors] call is made. *)
Theorem saveJobErrors_iff_some_job_rejected w event transcript :
  spineSucceeds w event transcript →
  (∃ jobErrors,
     saveJobErrors (projectId event) jobErrors
       ∈ fst (podcastProcessor w event)) ↔
  (∃ jobName reason,
     jobName ∈ selectedJobNames w (or_else (plan event) "free") transcript ∧
     jobOutcome w jobName transcript = Rejects reason).
Proof.
  intros Hspine.
  destruct (collect (jobNamesFor (or_else (plan event) "free"))
              (allSettled ((λ jobName, jobOutcome w jobName transcript)
                 <$> jobNamesFor (or_else (plan event) "free"))))
    as [generatedContent jobErrors] eqn:Hc.
  rewrite (podcastProcessor_success _ _ _ _ _ Hspine Hc). cbn [fst].
  rewrite <- selectedJobNames_spec with (w := w) (transcript := transcript)
    in Hc.
  rewrite <- (jobErrors_nonempty_iff _ _ _ _ _ Hc).
  unfold successTrace. split.
  - intros [je Hin].
    destruct (0 <? size jobErrors)%nat; [done |]. exfalso.
    apply list_elem_of_In in Hin. rewrite !in_app_iff, in_map_iff in Hin.
    simpl in Hin. decompose [or and ex] Hin; discriminate || done.
  - intros ->. exists jobErrors.
    rewrite !elem_of_app, list_elem_of_singleton. auto.
Qed.

(** X4.  After the aggregation the keys of [generatedContent] and those of
    [jobErrors] are disjoint and together are the selected job names, no
    other key is written, and the two records hold as many entries as jobs
    were selected. *)
Theorem collect_partitions_selected_jobs w plan transcript calls jobs jobNames
    generatedContent jobErrors :
  buildJobs w plan transcript = (calls, Normal (jobs, jobNames)) →
  collect jobNames (allSettled jobs) = (generatedContent, jobErrors) →
  dom generatedContent ∪ dom jobErrors = list_to_set jobNames ∧
  dom generatedContent ## dom jobErrors ∧
  (size generatedContent + size jobErrors = length jobNames)%nat.
Proof.
  rewrite buildJobs_spec. intros Hb Hc. injection Hb as _ <- <-.
  destruct (collect_allSettled _
              (λ jobName, jobOutcome w jobName transcript) _ _
              (jobNamesFor_NoDup _) Hc) as [Hin Hout].
  assert (dom generatedContent ## dom jobErrors) as Hdisj.
  { intros key Hgc Hje. apply elem_of_dom in Hgc, Hje.
    destruct (decide (key ∈ jobNamesFor plan)) as [Hsel | Hsel].
    - specialize (Hin key Hsel). unfold recordedAs in Hin.
      destruct (jobOutcome w key transcript); destruct Hin as [H1 H2].
      + rewrite H2 in Hje. by destruct Hje.
      + rewrite H2 in Hgc. by destruct Hgc.
    - destruct (Hout key Hsel) as [H1 _]. rewrite H1 in Hgc.
      by destruct Hgc. }
  assert (dom generatedContent ∪ dom jobErrors
          = list_to_set (jobNamesFor plan)) as Hunion.
  { apply set_eq. intros key.
    rewrite elem_of_union, !elem_of_dom, elem_of_list_to_set. split.
    - intros Hkey.
      destruct (decide (key ∈ jobNamesFor plan)) as [Hsel | Hsel]; [done |].
      destruct (Hout key Hsel) as [H1 H2]. rewrite H1, H2 in Hkey.
      destruct Hkey as [[? ?] | [? ?]]; done.
    - intros Hsel. specialize (Hin key Hsel). unfold recordedAs in Hin.
      destruct (jobOutcome w key transcript); destruct Hin as [H1 H2];
        rewrite H1; eauto. }
  split; [done | split; [done |]].
  rewrite <- !size_dom, <- size_union by done. rewrite Hunion.
  apply size_list_to_set, jobNamesFor_NoDup.
Qed.

(** X5.  When every selected job is rejected the run still succeeds if its
    spine steps do: the errors are saved, the flag is set to completed, and
    an empty [generatedContent] is persisted. *)
Theorem all_jobs_rejected_still_success w event transcript :
  spineSucceeds w event transcript →
  (∀ jobName,
     jobName ∈ selectedJobNames w (or_else (plan event) "free") transcript →
     ∃ reason, jobOutcome w jobName transcript = Rejects reason) →
  ∃ jobErrors,
    dom jobErrors =
      list_to_set (selectedJobNames w (or_else (plan event) "free") transcript) ∧
    podcastProcessor w event =
      ([ updateProjectStatus (projectId event) "processing";
         updateJobStatus (projectId event) "transcription" "running";
         transcribeWithAssemblyAI (fileUrl event) (projectId event)
           (or_else (plan event) "free");
         updateJobStatus (projectId event) "transcription" "completed";
         updateJobStatus (projectId event) "contentGeneration" "running" ] ++
       ((λ jobName, generate jobName transcript)
          <$> selectedJobNames w (or_else (plan event) "free") transcript) ++
       [ saveJobErrors (projectId event) jobErrors;
         updateJobStatus (projectId event) "contentGeneration" "completed";
         saveResultsToConvex (projectId event) ∅ ],
       Normal {| success := true;
                 result_projectId := projectId event;
                 result_plan := or_else (plan event) "free" |}).
Proof.
  intros Hspine Hall.
  destruct (collect (jobNamesFor (or_else (plan event) "free"))
              (allSettled ((λ jobName, jobOutcome w jobName transcript)
                 <$> jobNamesFor (or_else (plan event) "free"))))
    as [generatedContent jobErrors] eqn:Hc.
  rewrite (podcastProcessor_success _ _ _ _ _ Hspine Hc).
  rewrite selectedJobNames_spec in *.
  destruct (collect_allSettled _
              (λ jobName, jobOutcome w jobName transcript) _ _
              (jobNamesFor_NoDup _) Hc) as [Hin Hout].
  assert (generatedContent = ∅) as ->.
  { apply map_eq. intros key. rewrite lookup_empty.
    destruct (decide (key ∈ jobNamesFor (or_else (plan event) "free")))
      as [Hsel | Hsel]; [| by destruct (Hout key Hsel)].
    specialize (Hin key Hsel). destruct (Hall key Hsel) as [r Hr].
    unfold recordedAs in Hin. rewrite Hr in Hin. by destruct Hin. }
  assert (dom jobErrors
          = list_to_set (jobNamesFor (or_else (plan event) "free"))) as Hdom.
  { apply set_eq. intros key. rewrite elem_of_dom, elem_of_list_to_set.
    split.
    - intros [msg Hmsg].
      destruct (decide (key ∈ jobNamesFor (or_else (plan event) "free")))
        as [Hsel | Hsel]; [done |].
      destruct (Hout key Hsel) as [_ H2]. congruence.
    - intros Hsel. specialize (Hin key Hsel). destruct (Hall key Hsel) as [r Hr].
      unfold recordedAs in Hin. rewrite Hr in Hin. destruct Hin as [-> _].
      eauto. }
  exists jobErrors. split; [done |].
  assert ((0 <? size jobErrors)%nat = true) as Hsize.
  { apply Nat.ltb_lt. rewrite <- size_dom, Hdom.
    rewrite size_list_to_set by apply jobNamesFor_NoDup.
    unfold jobNamesFor. simpl. lia. }
  unfold successTrace. by rewrite Hsize.
Qed.

End WorkflowInvariantProofs.

(** ** The fan-out join, whatever the order of settlement *)

Section JoinOrderProofs.
Import JsRuntime JoinInv.
Context {A : Type}.
Implicit Types (outs : list (Outcome A)) (j : Join A).

Lemma join_inv_unique outs seen j1 j2 :
  join_inv outs seen j1 → join_inv outs seen j2 → j1 = j2.
Proof.
  intros (Hlen1 & Hval1 & Hrem1 & Hres1) (Hlen2 & Hval2 & Hrem2 & Hres2).
  assert (values j1 = values j2) as Hvalues.
  { apply list_eq. intros i. destruct (outs !! i) as [o|] eqn:Hi.
    - by rewrite (Hval1 i o Hi), (Hval2 i o Hi).
    - apply lookup_ge_None in Hi.
      rewrite (proj2 (lookup_ge_None (values j1) i)) by lia.
      by rewrite (proj2 (lookup_ge_None (values j2) i)) by lia. }
  destruct j1 as [v1 r1 s1], j2 as [v2 r2 s2]. simpl in *. subst. done.
Qed.

(** X7.  The state of the join, and so the array the workflow receives,
    depends only on which jobs have settled: neither the order in which
    they settle nor a reaction delivered twice changes it. *)
Theorem join_order_irrelevant outs sched1 sched2 :
  (∀ i, i < length outs → i ∈ sched1 ↔ i ∈ sched2) →
  join_run outs sched1 = join_run outs sched2.
Proof.
  intros Hsame. apply (join_inv_unique outs sched2).
  - apply (join_inv_seen outs sched1); [done |]. apply join_inv_run.
  - apply join_inv_run.
Qed.

End JoinOrderProofs.

(** ** The progress estimator: failures, bounds, labels *)

Section ProgressExtraProofs.
Import CompactProgress ProgressSpec.
Local Open Scope Q_scope.

Variable PROGRESS_CAP_PERCENTAGE : Q.
Variable estimateAssemblyAITime : option Q → Estimate.
Variable fileDuration : option Q.
Variable createdAt : Q.

Lemma strictEq_Some value lit :
  strictEq value lit = true ↔ value = Some lit.
Proof.
  destruct value as [s|]; simpl; [| done].
  rewrite String.eqb_eq. split; congruence.
Qed.

Lemma strictEq_normalize value lit :
  isJobState (Some lit) = true →
  strictEq (normalize value) lit = strictEq value lit.
Proof.
  intros Hlit. unfold normalize.
  destruct (isJobState value) eqn:Hstate; [done |].
  destruct value as [s|]; [| done]. simpl.
  destruct (String.eqb_spec s lit) as [-> | Hne]; [congruence | done].
Qed.

(** A failure is seen exactly when one of the eight flags is ["failed"]. *)
Lemma anyFailed_iff jobStatus :
  anyFailed jobStatus = true ↔
  Some "failed" ∈
    [ get jobStatus transcription; get jobStatus contentGeneration;
      get jobStatus keyMoments; get jobStatus summary;
      get jobStatus socialPosts; get jobStatus titles;
      get jobStatus hashtags; get jobStatus youtubeTimestamps ].
Proof.
  unfold anyFailed, transcriptionStatus, contentGenerationStatus,
    stepStatuses.
  cbn [List.map existsb].
  rewrite !strictEq_normalize by reflexivity.
  rewrite !orb_true_iff, !strictEq_Some, !elem_of_cons, elem_of_nil.
  intuition congruence.
Qed.

(** X8.  Once any of the eight flags is ["failed"], the label is the
    failure one and the progress is the previous value held at 95 at most:
    it is never raised, never reaches 100, and evaluating again changes
    nothing. *)
Theorem failure_freezes_progress jobStatus progress now now' :
  Some "failed" ∈
    [ get jobStatus transcription; get jobStatus contentGeneration;
      get jobStatus keyMoments; get jobStatus summary;
      get jobStatus socialPosts; get jobStatus titles;
      get jobStatus hashtags; get jobStatus youtubeTimestamps ] →
  statusText jobStatus = "⚠️ Failed" ∧
  effect PROGRESS_CAP_PERCENTAGE estimateAssemblyAITime
    jobStatus fileDuration createdAt progress now == Qmin progress 95 ∧
  effect PROGRESS_CAP_PERCENTAGE estimateAssemblyAITime
    jobStatus fileDuration createdAt progress now <= progress ∧
  effect PROGRESS_CAP_PERCENTAGE estimateAssemblyAITime
    jobStatus fileDuration createdAt progress now <= 95 ∧
  effect PROGRESS_CAP_PERCENTAGE estimateAssemblyAITime
    jobStatus fileDuration createdAt
    (effect PROGRESS_CAP_PERCENTAGE estimateAssemblyAITime
       jobStatus fileDuration createdAt progress now) now'
  == effect PROGRESS_CAP_PERCENTAGE estimateAssemblyAITime
       jobStatus fileDuration createdAt progress now.
Proof.
  intros Hfailed%anyFailed_iff. unfold statusText, effect. rewrite Hfailed.
  split; [done |]. split; [reflexivity |].
  split; [apply Q.le_min_l |]. split; [apply Q.le_min_r |].
  apply Q.min_l, Q.le_min_r.
Qed.

(** The label by the position of the transcription flag, absent
    failures. *)
Lemma statusText_no_failure jobStatus :
  anyFailed jobStatus = false →
  statusText jobStatus =
    match transcriptionRank jobStatus with
    | 0%nat => "⏳ Processing..."
    | 1%nat => "🎙️ Transcribing..."
    | _ =>
        if (completedSteps jobStatus =? 6)%nat then "✅ Complete"
        else "✨ Generating content..."
    end.
Proof.
  intros Hok. unfold statusText, transcriptionRank.
  rewrite Hok, isGenerated_spec.
  destruct (isTranscribed jobStatus) eqn:Htd.
  - rewrite (transcribed_not_transcribing _ Htd). simpl.
    by destruct (completedSteps jobStatus =? 6)%nat.
  - by destruct (isTranscribing jobStatus).
Qed.

(** X9.  The progress is 100 exactly when the label is the complete one,
    for every input: no other state, failed or not, shows 100, and the
    complete label is never shown below 100. *)
Theorem hundred_iff_complete jobStatus progress now :
  effect PROGRESS_CAP_PERCENTAGE estimateAssemblyAITime
    jobStatus fileDuration createdAt progress now == 100
  ↔ statusText jobStatus = "✅ Complete".
Proof.
  destruct (anyFailed jobStatus) eqn:Hfail.
  - unfold statusText, effect. rewrite Hfail. split; [| done].
    intros H. pose proof (Q.le_min_r progress 95) as Hle.
    rewrite H in Hle. by compute in Hle.
  - rewrite (effect_no_failure _ _ _ _ _ _ _ Hfail),
      (statusText_no_failure _ Hfail).
    pose proof (completedSteps_le_six jobStatus) as Hc.
    pose proof (updateProgress_le_50 PROGRESS_CAP_PERCENTAGE
                  estimateAssemblyAITime fileDuration createdAt now) as Hp.
    destruct (transcriptionRank jobStatus) as [| [| r]].
    + split; [intros H; by compute in H | done].
    + split; [intros H; rewrite H in Hp; by compute in Hp | done].
    + destruct (completedSteps jobStatus =? 6)%nat eqn:E; [done |].
      split; [| done]. intros H. exfalso.
      apply Nat.eqb_neq in E.
      assert (inject_Z (Z.of_nat (completedSteps jobStatus)) <= 5) as H5
        by (change 5 with (inject_Z 5); rewrite <- Zle_Qle; lia).
      lra.
Qed.

(** Phase 1 is not negative once the clock has reached [createdAt]. *)
Lemma updateProgress_nonneg now :
  0 < PROGRESS_CAP_PERCENTAGE →
  0 < conservative (estimateAssemblyAITime fileDuration) →
  createdAt <= now →
  0 <= updateProgress PROGRESS_CAP_PERCENTAGE estimateAssemblyAITime
         fileDuration createdAt now.
Proof.
  intros Hcap Hest Hnow.
  rewrite <- (updateProgress_at_start PROGRESS_CAP_PERCENTAGE
                estimateAssemblyAITime fileDuration createdAt Hcap Hest).
  by apply updateProgress_mono.
Qed.

(** X10.  The progress stays a percentage: from a value between 0 and 100,
    with a positive cap and estimate and a clock that has reached
    [createdAt], the effect stores a value between 0 and 100, whatever the
    flags. *)
Theorem progress_stays_percentage jobStatus progress now :
  0 < PROGRESS_CAP_PERCENTAGE →
  0 < conservative (estimateAssemblyAITime fileDuration) →
  createdAt <= now →
  0 <= progress → progress <= 100 →
  0 <= effect PROGRESS_CAP_PERCENTAGE estimateAssemblyAITime
         jobStatus fileDuration createdAt progress now ∧
  effect PROGRESS_CAP_PERCENTAGE estimateAssemblyAITime
    jobStatus fileDuration createdAt progress now <= 100.
Proof.
  intros Hcap Hest Hnow Hlo Hhi.
  destruct (anyFailed jobStatus) eqn:Hfail.
  - unfold effect. rewrite Hfail. split.
    + apply Q.min_glb; [done | by compute].
    + apply Qle_trans with 95; [apply Q.le_min_r | by compute].
  - rewrite (effect_no_failure _ _ _ _ _ _ _ Hfail).
    pose proof (phase2_bounds _ (completedSteps_le_six jobStatus))
      as [Hlo2 Hhi2].
    pose proof (updateProgress_le_50 PROGRESS_CAP_PERCENTAGE
                  estimateAssemblyAITime fileDuration createdAt now) as Hp.
    pose proof (updateProgress_nonneg now Hcap Hest Hnow) as Hp0.
    destruct (transcriptionRank jobStatus) as [| [| r]].
    + split; by compute.
    + split; lra.
    + destruct (completedSteps jobStatus =? 6)%nat; split; lra.
Qed.

Lemma transcribing_not_transcribed jobStatus :
  isTranscribing jobStatus = true → isTranscribed jobStatus = false.
Proof.
  unfold isTranscribed, isTranscribing.
  destruct (transcriptionStatus jobStatus) as [s|]; simpl; [| done].
  intros ->%String.eqb_eq. reflexivity.
Qed.

(** X11.  While the transcription runs and nothing has failed, the progress
    is the elapsed whole seconds over the conservative estimate, as a
    percentage rescaled from the cap to 50: it grows linearly until that
    percentage reaches the cap and is 50 from then on, so the outer bound
    of 50 is met exactly at the cap. *)
Theorem phase1_linear_then_fifty jobStatus progress now :
  0 < PROGRESS_CAP_PERCENTAGE →
  0 < conservative (estimateAssemblyAITime fileDuration) →
  anyFailed jobStatus = false →
  isTranscribing jobStatus = true →
  (inject_Z (Qfloor ((now - createdAt) / 1000))
     / conservative (estimateAssemblyAITime fileDuration) * 100
   <= PROGRESS_CAP_PERCENTAGE →
   effect PROGRESS_CAP_PERCENTAGE estimateAssemblyAITime
     jobStatus fileDuration createdAt progress now
   == inject_Z (Qfloor ((now - createdAt) / 1000))
        / conservative (estimateAssemblyAITime fileDuration) * 100
        / PROGRESS_CAP_PERCENTAGE * 50) ∧
  (PROGRESS_CAP_PERCENTAGE
   <= inject_Z (Qfloor ((now - createdAt) / 1000))
        / conservative (estimateAssemblyAITime fileDuration) * 100 →
   effect PROGRESS_CAP_PERCENTAGE estimateAssemblyAITime
     jobStatus fileDuration createdAt progress now == 50).
Proof.
  intros Hcap Hest Hok Htg.
  rewrite (effect_no_failure _ _ _ _ _ _ _ Hok).
  unfold transcriptionRank.
  rewrite (transcribing_not_transcribed _ Htg), Htg.
  unfold updateProgress.
  set (raw := inject_Z (Qfloor ((now - createdAt) / 1000))
              / conservative (estimateAssemblyAITime fileDuration) * 100).
  assert (¬ PROGRESS_CAP_PERCENTAGE == 0) as Hne by lra.
  split; intros Hraw.
  - rewrite (Q.min_r _ _ Hraw). apply Q.min_r.
    assert (raw / PROGRESS_CAP_PERCENTAGE <= 1) as H1
      by (apply Qle_shift_div_r; [done | lra]).
    lra.
  - rewrite (Q.min_l _ _ Hraw).
    assert (PROGRESS_CAP_PERCENTAGE / PROGRESS_CAP_PERCENTAGE * 50 == 50)
      as -> by (field; done).
    by apply Q.min_l.
Qed.

(** X12.  The [contentGeneration] flag acts on the display through
    ["failed"] only: any other value of it, ["completed"] included, leaves
    the label and the progress as they are. *)
Theorem contentGeneration_only_matters_when_failed
    doc value progress now :
  contentGeneration doc ≠ Some "failed" →
  value ≠ Some "failed" →
  let doc' :=
    {| transcription := transcription doc;
       contentGeneration := value;
       keyMoments := keyMoments doc;
       summary := summary doc;
       socialPosts := socialPosts doc;
       titles := titles doc;
       hashtags := hashtags doc;
       youtubeTimestamps := youtubeTimestamps doc |} in
  statusText (Some doc') = statusText (Some doc) ∧
  effect PROGRESS_CAP_PERCENTAGE estimateAssemblyAITime
    (Some doc') fileDuration createdAt progress now
  = effect PROGRESS_CAP_PERCENTAGE estimateAssemblyAITime
      (Some doc) fileDuration createdAt progress now.
Proof.
  intros Hdoc Hvalue doc'.
  assert (anyFailed (Some doc') = anyFailed (Some doc)) as Hsame.
  { unfold anyFailed, contentGenerationStatus, get.
    rewrite !strictEq_normalize by reflexivity.
    assert (strictEq (contentGeneration doc') "failed" = false) as ->
      by (apply not_true_is_false; by rewrite strictEq_Some).
    assert (strictEq (contentGeneration doc) "failed" = false) as ->
      by (apply not_true_is_false; by rewrite strictEq_Some).
    reflexivity. }
  unfold statusText, effect. rewrite Hsame. split; reflexivity.
Qed.

End ProgressExtraProofs.

(** ** Tier utilities *)

Section TierProofs.
Import JsRuntime PodcastProcessor TierUtils TierSpec.
Local Open Scope Q_scope.

Variable PLAN_FEATURES : PlanName → list string.
Variable PLAN_LIMITS : PlanName → Limits.
Variable toFixed : Q → nat → string.
Variable numberToString : Q → string.
Variable getUserProjectCount : string → bool → Outcome Q.

Lemma gt_true_iff x y : gt x y = true ↔ y < x.
Proof.
  unfold gt. rewrite negb_true_iff, <- not_true_iff_false, Qle_bool_iff.
  split; [apply Qnot_le_lt | apply Qlt_not_le].
Qed.

Lemma gt_false_iff x y : gt x y = false ↔ x <= y.
Proof. unfold gt. by rewrite negb_false_iff, Qle_bool_iff. Qed.

Lemma ge_true_iff x y : ge x y = true ↔ y <= x.
Proof. unfold ge. apply Qle_bool_iff. Qed.

Lemma ge_false_iff x y : ge x y = false ↔ x < y.
Proof.
  unfold ge. rewrite <- not_true_iff_false, Qle_bool_iff.
  split; [apply Qnot_le_lt | apply Qlt_not_le].
Qed.

(** X13.  [getMinimumPlanForFeature] gives the least plan that includes the
    feature, when a plan does; for a feature no plan includes it answers
    ultra all the same. *)
Theorem minimum_plan_is_least feature :
  (∀ plan,
     planHasFeature PLAN_FEATURES plan feature = true →
     planHasFeature PLAN_FEATURES
       (getMinimumPlanForFeature PLAN_FEATURES feature) feature = true ∧
     (planRank (getMinimumPlanForFeature PLAN_FEATURES feature)
      ≤ planRank plan)%nat) ∧
  ((∀ plan, planHasFeature PLAN_FEATURES plan feature = false) →
   getMinimumPlanForFeature PLAN_FEATURES feature = ultra).
Proof.
  unfold getMinimumPlanForFeature, planHasFeature. split.
  - intros plan Hplan.
    destruct (bool_decide (feature ∈ PLAN_FEATURES free)) eqn:Hfree;
      [rewrite Hfree; split; [done | simpl; lia] |].
    destruct (bool_decide (feature ∈ PLAN_FEATURES pro)) eqn:Hpro;
      [rewrite Hpro; split; [done |];
       destruct plan; simpl; [congruence | lia | lia] |].
    destruct plan; [congruence | congruence |]. split; [done | simpl; lia].
  - intros Hnone.
    by rewrite (Hnone free), (Hnone pro).
Qed.

(** Case analysis along the tests of [checkUploadLimits], each test
    turned into the order fact it decides. *)
Ltac upload_cases auth userId fileSize duration :=
  unfold checkUploadLimits, withinSize, withinDuration in *;
  destruct (gt fileSize (maxFileSize (PLAN_LIMITS (getPlanFromAuth auth))))
    eqn:Hsize;
  [ apply gt_true_iff in Hsize | apply gt_false_iff in Hsize ];
  destruct duration as [d|];
  destruct (maxDuration (PLAN_LIMITS (getPlanFromAuth auth))) as [maxD|]
    eqn:HmaxD;
  try (destruct (gt d maxD) eqn:Hdur;
       [ apply gt_true_iff in Hdur | apply gt_false_iff in Hdur ]);
  destruct (maxProjects (PLAN_LIMITS (getPlanFromAuth auth))) as [maxP|]
    eqn:HmaxP;
  try (destruct (getUserProjectCount userId _) as [n | e] eqn:Hcount;
       [ destruct (ge n maxP) eqn:Hn;
         [ apply ge_true_iff in Hn | apply ge_false_iff in Hn ] | ]);
  cbn [fst snd allowed reason message currentCount limit] in *.

(** X14.  An upload is allowed exactly when the file is within the size
    limit of the user's plan, its duration, if given and limited, is within
    the duration limit, and, if the plan limits the number of projects, the
    store answers with a count below that limit. *)
Theorem upload_allowed_iff auth userId fileSize duration :
  (∃ queries result,
     checkUploadLimits PLAN_LIMITS toFixed numberToString getUserProjectCount
       auth userId fileSize duration = (queries, Normal result) ∧
     allowed result = true)
  ↔
  withinSize (PLAN_LIMITS (getPlanFromAuth auth)) fileSize ∧
  withinDuration (PLAN_LIMITS (getPlanFromAuth auth)) duration ∧
  (∀ maxP,
     maxProjects (PLAN_LIMITS (getPlanFromAuth auth)) = Some maxP →
     ∃ n,
       getUserProjectCount userId (countsDeleted (getPlanFromAuth auth))
         = Resolves n ∧
       n < maxP).
Proof.
  split.
  - intros (queries & result & Hrun & Hallowed).
    upload_cases auth userId fileSize duration;
      try discriminate Hrun; injection Hrun as <- <-;
      try discriminate Hallowed;
      (split; [done |]); split;
      try (intros ? ? ? ?; simplify_eq; done);
      intros ? ?; simplify_eq; eauto.
  - intros (Hs & Hd & Hp).
    upload_cases auth userId fileSize duration;
      try (exfalso; lra);
      try (specialize (Hd d maxD eq_refl eq_refl); exfalso; lra);
      try (destruct (Hp maxP eq_refl) as (n' & Hn' & Hlt);
           simplify_eq; try (exfalso; lra));
      eauto.
Qed.

(** X15.  A refusal names the first limit that is exceeded, in the order
    size, duration, projects, and says so in a message; a size or duration
    refusal is made without asking the store; a project refusal reports
    the count the store gave and the limit it has reached; an allowed
    upload carries no reason, message or count. *)
Theorem upload_refusal_reason auth userId fileSize duration queries result :
  checkUploadLimits PLAN_LIMITS toFixed numberToString getUserProjectCount
    auth userId fileSize duration = (queries, Normal result) →
  (is_Some (message result) ↔ is_Some (reason result)) ∧
  match reason result with
  | Some file_size =>
      allowed result = false ∧ queries = [] ∧
      maxFileSize (PLAN_LIMITS (getPlanFromAuth auth)) < fileSize
  | Some duration_limit =>
      allowed result = false ∧ queries = [] ∧
      withinSize (PLAN_LIMITS (getPlanFromAuth auth)) fileSize ∧
      ∃ d maxD,
        duration = Some d ∧
        maxDuration (PLAN_LIMITS (getPlanFromAuth auth)) = Some maxD ∧
        maxD < d
  | Some project_limit =>
      allowed result = false ∧
      withinSize (PLAN_LIMITS (getPlanFromAuth auth)) fileSize ∧
      withinDuration (PLAN_LIMITS (getPlanFromAuth auth)) duration ∧
      ∃ n maxP,
        maxProjects (PLAN_LIMITS (getPlanFromAuth auth)) = Some maxP ∧
        getUserProjectCount userId (countsDeleted (getPlanFromAuth auth))
          = Resolves n ∧
        maxP <= n ∧
        currentCount result = Some n ∧ limit result = Some maxP
  | None =>
      allowed result = true ∧
      currentCount result = None ∧ limit result = None
  end.
Proof.
  intros Hrun.
  upload_cases auth userId fileSize duration;
    try discriminate Hrun; injection Hrun as <- <-;
    cbn [fst snd allowed reason message currentCount limit];
    (split; [split; intros [? ?]; done || eauto |]);
    repeat split; eauto 10;
    try (intros ? ? ? ?; simplify_eq; done).
Qed.

(** X16.  [checkUploadLimits] asks the store for the project count at most
    once, with deleted projects counted for the free plan only, and only
    when the size and duration checks pass and the plan limits the number
    of projects; it throws only what that query is rejected with. *)
Theorem upload_query_only_when_needed auth userId fileSize duration :
  (fst (checkUploadLimits PLAN_LIMITS toFixed numberToString
          getUserProjectCount auth userId fileSize duration) = [] ∨
   fst (checkUploadLimits PLAN_LIMITS toFixed numberToString
          getUserProjectCount auth userId fileSize duration)
     = [(userId, countsDeleted (getPlanFromAuth auth))]) ∧
  (fst (checkUploadLimits PLAN_LIMITS toFixed numberToString
          getUserProjectCount auth userId fileSize duration) ≠ [] ↔
   withinSize (PLAN_LIMITS (getPlanFromAuth auth)) fileSize ∧
   withinDuration (PLAN_LIMITS (getPlanFromAuth auth)) duration ∧
   is_Some (maxProjects (PLAN_LIMITS (getPlanFromAuth auth)))) ∧
  (∀ e,
     snd (checkUploadLimits PLAN_LIMITS toFixed numberToString
            getUserProjectCount auth userId fileSize duration) = Throw e ↔
     fst (checkUploadLimits PLAN_LIMITS toFixed numberToString
            getUserProjectCount auth userId fileSize duration) ≠ [] ∧
     getUserProjectCount userId (countsDeleted (getPlanFromAuth auth))
       = Rejects e).
Proof.
  assert (∀ plan, match plan with free => true | _ => false end
                  = countsDeleted plan) as Hdel by (by intros []).
  split; [| split].
  - upload_cases auth userId fileSize duration; rewrite ?Hdel; auto.
  - upload_cases auth userId fileSize duration;
      (split; [intros Hne | intros (Hs & Hd & Hp)]);
      try done;
      try (exfalso; lra);
      try (exfalso; specialize (Hd d maxD eq_refl eq_refl); lra);
      try (exfalso; by destruct Hp);
      (split; [done | split; [| eauto]]);
      intros ? ? ? ?; simplify_eq; done.
  - intros e0.
    upload_cases auth userId fileSize duration;
      (split; [intros Hthrow | intros [Hne Hrej]]);
      try done; simplify_eq; done.
Qed.

(** X17.  What is allowed stays allowed for a smaller file and for a
    shorter duration, or with the duration left out, which no plan
    refuses. *)
Theorem smaller_upload_still_allowed auth userId
    fileSize fileSize' duration duration' :
  fileSize' <= fileSize →
  (duration' = None ∨
   ∃ d d', duration = Some d ∧ duration' = Some d' ∧ d' <= d) →
  (∃ queries result,
     checkUploadLimits PLAN_LIMITS toFixed numberToString getUserProjectCount
       auth userId fileSize duration = (queries, Normal result) ∧
     allowed result = true) →
  ∃ queries result,
    checkUploadLimits PLAN_LIMITS toFixed numberToString getUserProjectCount
      auth userId fileSize' duration' = (queries, Normal result) ∧
    allowed result = true.
Proof.
  intros Hsize' Hduration' (queries & result & Hrun & Hallowed).
  unfold checkUploadLimits in *.
  destruct (gt fileSize (maxFileSize (PLAN_LIMITS (getPlanFromAuth auth))))
    eqn:Hsize; [injection Hrun as <- <-; discriminate Hallowed |].
  apply gt_false_iff in Hsize.
  assert (gt fileSize' (maxFileSize (PLAN_LIMITS (getPlanFromAuth auth)))
          = false) as -> by (apply gt_false_iff; lra).
  destruct Hduration' as [-> | (d & d' & -> & -> & Hle)].
  - destruct duration as [d|];
      destruct (maxDuration (PLAN_LIMITS (getPlanFromAuth auth)))
        as [maxD|]; eauto.
    destruct (gt d maxD); [| eauto].
    injection Hrun as <- <-. discriminate Hallowed.
  - destruct (maxDuration (PLAN_LIMITS (getPlanFromAuth auth)))
      as [maxD|]; [| eauto].
    destruct (gt d maxD) eqn:Hdur;
      [injection Hrun as <- <-; discriminate Hallowed |].
    apply gt_false_iff in Hdur.
    assert (gt d' maxD = false) as -> by (apply gt_false_iff; lra).
    eauto.
Qed.

End TierProofs.

(** ** The further properties on concrete inputs *)

Section MoreRuns.
Import JsRuntime PodcastProcessor WorkflowSpec WorkflowInvariants.
Import CompactProgress ProgressSpec ProgressScenarios.
Import TierUtils TierSpec.

(** X3 at plan pro with only the titles job rejected. *)
Lemma saveJobErrors_iff_some_job_rejected_witness :
  (∃ jobErrors,
     saveJobErrors "project-1" jobErrors
       ∈ fst (podcastProcessor Scenarios.titlesFail
                (Scenarios.event (Some "pro")))) ↔
  (∃ jobName reason,
     jobName ∈ selectedJobNames Scenarios.titlesFail "pro" "transcript" ∧
     jobOutcome Scenarios.titlesFail jobName "transcript" = Rejects reason).
Proof.
  apply (saveJobErrors_iff_some_job_rejected Scenarios.titlesFail
           (Scenarios.event (Some "pro")) "transcript").
  split; [intros id; reflexivity | reflexivity].
Defined.

(** X4 at the same run: three contents, one error, four jobs. *)
Lemma collect_partitions_selected_jobs_witness :
  dom MoreScenarios.titlesFailContent ∪ dom MoreScenarios.titlesFailErrors
    = list_to_set ["summary"; "socialPosts"; "titles"; "hashtags"] ∧
  dom MoreScenarios.titlesFailContent ## dom MoreScenarios.titlesFailErrors ∧
  size MoreScenarios.titlesFailContent + size MoreScenarios.titlesFailErrors
    = 4.
Proof.
  eapply (collect_partitions_selected_jobs Scenarios.titlesFail
            "pro" "transcript").
  - reflexivity.
  - vm_compute. reflexivity.
Defined.

(** X5 at plan free with the summary job rejected. *)
Lemma all_jobs_rejected_still_success_witness :
  ∃ jobErrors,
    dom jobErrors = list_to_set ["summary"] ∧
    podcastProcessor MoreScenarios.allRejected (Scenarios.event None) =
      ([ updateProjectStatus "project-1" "processing";
         updateJobStatus "project-1" "transcription" "running";
         transcribeWithAssemblyAI "https://blob.example/audio.mp3"
           "project-1" "free";
         updateJobStatus "project-1" "transcription" "completed";
         updateJobStatus "project-1" "contentGeneration" "running" ] ++
       [ generate "summary" "transcript" ] ++
       [ saveJobErrors "project-1" jobErrors;
         updateJobStatus "project-1" "contentGeneration" "completed";
         saveResultsToConvex "project-1" ∅ ],
       Normal {| success := true;
                 result_projectId := "project-1";
                 result_plan := "free" |}).
Proof.
  apply (all_jobs_rejected_still_success MoreScenarios.allRejected
           (Scenarios.event None) "transcript").
  - split; [intros id; reflexivity | reflexivity].
  - intros jobName _. eexists. reflexivity.
Defined.

(** X7 for three jobs settling as 0, 2, 1 and as 1, 0, 0, 2. *)
Lemma join_order_irrelevant_witness :
  join_run [Rejects Scenarios.rateLimited; Resolves "a"; Resolves "b"]
    [0; 2; 1]%nat
  = join_run [Rejects Scenarios.rateLimited; Resolves "a"; Resolves "b"]
      [1; 0; 0; 2]%nat.
Proof.
  apply join_order_irrelevant.
  intros i Hi. simpl in Hi.
  destruct i as [| [| [| i]]]; [| | | lia];
    split; intros _; apply (bool_decide_unpack _); vm_compute; exact I.
Defined.

(** X8 where the titles step has failed and the progress stood at 100. *)
Lemma failure_freezes_progress_witness :
  statusText (Some MoreScenarios.titlesStepFailed) = "⚠️ Failed" ∧
  (effect cap estimate (Some MoreScenarios.titlesStepFailed)
     None 0 100 0 == Qmin 100 95)%Q ∧
  (effect cap estimate (Some MoreScenarios.titlesStepFailed)
     None 0 100 0 <= 100)%Q ∧
  (effect cap estimate (Some MoreScenarios.titlesStepFailed)
     None 0 100 0 <= 95)%Q ∧
  (effect cap estimate (Some MoreScenarios.titlesStepFailed) None 0
     (effect cap estimate (Some MoreScenarios.titlesStepFailed)
        None 0 100 0) 1000
   == effect cap estimate (Some MoreScenarios.titlesStepFailed)
        None 0 100 0)%Q.
Proof.
  apply (failure_freezes_progress cap estimate None 0
           (Some MoreScenarios.titlesStepFailed) 100 0 1000).
  apply (bool_decide_unpack _). vm_compute. exact I.
Defined.

(** X10 one second into the transcription. *)
Lemma progress_stays_percentage_witness :
  (0 <= effect cap estimate transcribing None 0 0 1000)%Q ∧
  (effect cap estimate transcribing None 0 0 1000 <= 100)%Q.
Proof.
  apply (progress_stays_percentage cap estimate None 0 transcribing 0 1000).
  - reflexivity.
  - reflexivity.
  - vm_compute. discriminate.
  - vm_compute. discriminate.
  - vm_compute. discriminate.
Defined.

(** X11 with a cap of 80 and an estimate of 100 seconds: one second in,
    and after ninety seconds. *)
Lemma phase1_linear_then_fifty_witness :
  (effect cap estimate transcribing None 0 0 1000 == 5 # 8)%Q ∧
  (effect cap estimate transcribing None 0 0 90000 == 50)%Q.
Proof.
  destruct (phase1_linear_then_fifty cap estimate None 0 transcribing
              0 1000 eq_refl eq_refl eq_refl eq_refl) as [Hlinear _].
  destruct (phase1_linear_then_fifty cap estimate None 0 transcribing
              0 90000 eq_refl eq_refl eq_refl eq_refl) as [_ Hfifty].
  split.
  - rewrite Hlinear; [| vm_compute; discriminate]. vm_compute. reflexivity.
  - apply Hfifty. vm_compute. discriminate.
Defined.

(** X12 when the workflow sets the flag to completed. *)
Lemma contentGeneration_only_matters_when_failed_witness :
  statusText
    (Some {| transcription := Some "completed";
             contentGeneration := Some "completed";
             keyMoments := None;
             summary := Some "completed";
             socialPosts := Some "completed";
             titles := Some "running";
             hashtags := Some "running";
             youtubeTimestamps := None |})
  = statusText (Some MoreScenarios.generating) ∧
  effect cap estimate
    (Some {| transcription := Some "completed";
             contentGeneration := Some "completed";
             keyMoments := None;
             summary := Some "completed";
             socialPosts := Some "completed";
             titles := Some "running";
             hashtags := Some "running";
             youtubeTimestamps := None |}) None 0 0 0
  = effect cap estimate (Some MoreScenarios.generating) None 0 0 0.
Proof.
  apply (contentGeneration_only_matters_when_failed cap estimate None 0
           MoreScenarios.generating (Some "completed") 0 0).
  - apply (bool_decide_unpack _). vm_compute. exact I.
  - apply (bool_decide_unpack _). vm_compute. exact I.
Defined.

(** The clock of the viewer behind [createdAt] by five seconds: phase 1
    goes below zero. *)
Example clock_behind_createdAt :
  (effect cap estimate transcribing None 5000 0 0 == - (25 # 8))%Q.
Proof. vm_compute. reflexivity. Qed.

(** X15 for a free user: eleven megabytes against a limit of ten. *)
Lemma upload_refusal_reason_witness :
  ∃ result,
    checkUploadLimits TierScenarios.limits TierScenarios.showFixed
      TierScenarios.showWhole TierScenarios.projectCount
      TierScenarios.freeUser "user-1" (11 * 1024 * 1024)%Q (Some 30%Q)
    = ([], Normal result) ∧
    reason result = Some file_size ∧
    allowed result = false ∧
    (maxFileSize (TierScenarios.limits free) < 11 * 1024 * 1024)%Q.
Proof.
  eexists. split; [reflexivity |].
  pose proof (upload_refusal_reason TierScenarios.limits
                TierScenarios.showFixed TierScenarios.showWhole
                TierScenarios.projectCount TierScenarios.freeUser "user-1"
                (11 * 1024 * 1024)%Q (Some 30%Q) _ _ eq_refl)
    as [_ Hreason].
  cbn [reason] in Hreason. destruct Hreason as (Hallowed & _ & Hsize).
  split; [reflexivity | split; [exact Hallowed | exact Hsize]].
Defined.

(** X17 for a pro user: 100 MB and an hour allowed, so 50 MB with no
    duration is. *)
Lemma smaller_upload_still_allowed_witness :
  ∃ queries result,
    checkUploadLimits TierScenarios.limits TierScenarios.showFixed
      TierScenarios.showWhole TierScenarios.projectCount
      TierScenarios.proUser "user-1" (50 * 1024 * 1024)%Q None
    = (queries, Normal result) ∧
    allowed result = true.
Proof.
  apply (smaller_upload_still_allowed TierScenarios.limits
           TierScenarios.showFixed TierScenarios.showWhole
           TierScenarios.projectCount TierScenarios.proUser "user-1"
           (100 * 1024 * 1024)%Q (50 * 1024 * 1024)%Q (Some 3600%Q) None).
  - vm_compute. discriminate.
  - left. reflexivity.
  - eexists _, _. split; reflexivity.
Defined.

End MoreRuns.
